(** * Funweb-Electro-Simulation: the physics core

    A shallow embedding of [src/utils/Vector2.ts], [src/constants.ts] and
    [src/classes/ChargedObject.ts] (classes [ChargedObject] and
    [PhysicsEngine]), and the properties of the specification's section 8
    settled against it; then the calculations of their callers ([App],
    [ForceGraph], [CanvasRenderer]) and further properties of the code.

    A TypeScript [number] is an IEEE 754 binary64 value.  The code is
    embedded once, over an interface [Number] of the arithmetic it uses, and
    read at two instances:
    - [JS]: Rocq's primitive binary64 floats, which are what the program
      runs on (every definition evaluates there);
    - [Ideal]: the real numbers, the arithmetic the specification speaks of
      when it says "within floating tolerance". *)

From Stdlib Require Import ZArith Bool List Lia String.
From Stdlib Require Import Floats.
From Stdlib Require Import Reals Lra Psatz.
From stdpp Require Import base list.

(* ===================================================================== *)
(** ** The arithmetic of a TypeScript [number] *)
(* ===================================================================== *)

(** The operations the physics core applies to numbers: literals, [+ - * /],
    unary minus, [Math.sqrt], [Math.abs], [Math.max], [Math.min], [<] and
    [===]. *)
Class Number := {
  num : Type;
  ofZ : Z -> num;
  nadd : num -> num -> num;
  nsub : num -> num -> num;
  nmul : num -> num -> num;
  ndiv : num -> num -> num;
  nopp : num -> num;
  nsqrt : num -> num;
  nabs : num -> num;
  nmax : num -> num -> num;
  nmin : num -> num -> num;
  nltb : num -> num -> bool;
  neqb : num -> num -> bool;
}.

Declare Scope num_scope.
Delimit Scope num_scope with num.
Infix "+" := nadd : num_scope.
Infix "-" := nsub : num_scope.
Infix "*" := nmul : num_scope.
Infix "/" := ndiv : num_scope.
Notation "- a" := (nopp a) : num_scope.
Infix "<?" := nltb : num_scope.
Notation "a >? b" := (nltb b a) (only parsing) : num_scope.
Infix "===" := neqb (at level 70, no associativity) : num_scope.

(** A decimal literal [n / d] with [d] a power of ten ([0.5] is [dec 5 10]).
    Both are small integers, exact in binary64, and IEEE division rounds
    correctly, so on floats this is the double the literal denotes. *)
Definition dec `{Number} (n d : Z) : num := (ofZ n / ofZ d)%num.

(** *** The program's numbers: binary64 *)
Module JS.

Definition of_int (z : Z) : float :=
  match z with
  | Z0 => 0%float
  | Zpos _ => PrimFloat.of_uint63 (Uint63.of_Z z)
  | Zneg p => PrimFloat.opp (PrimFloat.of_uint63 (Uint63.of_Z (Zpos p)))
  end.

(** [Math.max]: NaN if either argument is NaN; [+0] is larger than [-0]. *)
Definition max (a b : float) : float :=
  if PrimFloat.is_nan a || PrimFloat.is_nan b then PrimFloat.nan
  else if PrimFloat.ltb a b then b
  else if PrimFloat.ltb b a then a
  else if PrimFloat.get_sign a then b else a.

(** [Math.min]: NaN if either argument is NaN; [-0] is smaller than [+0]. *)
Definition min (a b : float) : float :=
  if PrimFloat.is_nan a || PrimFloat.is_nan b then PrimFloat.nan
  else if PrimFloat.ltb a b then a
  else if PrimFloat.ltb b a then b
  else if PrimFloat.get_sign a then a else b.

#[export] Instance number : Number := {|
  num := float;
  ofZ := of_int;
  nadd := PrimFloat.add;
  nsub := PrimFloat.sub;
  nmul := PrimFloat.mul;
  ndiv := PrimFloat.div;
  nopp := PrimFloat.opp;
  nsqrt := PrimFloat.sqrt;
  nabs := PrimFloat.abs;
  nmax := max;
  nmin := min;
  nltb := PrimFloat.ltb;
  neqb := PrimFloat.eqb;
|}.

End JS.

(** *** The specification's numbers: the reals *)
Module Ideal.

Definition ltb (a b : R) : bool := if Rlt_dec a b then true else false.

Definition eqb (a b : R) : bool := if Req_dec_T a b then true else false.

#[export] Instance number : Number := {|
  num := R;
  ofZ := IZR;
  nadd := Rplus;
  nsub := Rminus;
  nmul := Rmult;
  ndiv := Rdiv;
  nopp := Ropp;
  nsqrt := sqrt;
  nabs := Rabs;
  nmax := Rmax;
  nmin := Rmin;
  nltb := ltb;
  neqb := eqb;
|}.

End Ideal.

(** [float] and [R] are recognised as the carriers of the two instances. *)
Canonical Structure JS.number.
Canonical Structure Ideal.number.

(* ===================================================================== *)
(** ** [src/constants.ts] *)
(* ===================================================================== *)

Module PHYSICS_CONSTANTS.

Definition K_COULOMB `{Number} : num := ofZ 20000.

Definition MAX_TRAIL_LENGTH : nat := 50.

Definition MIN_DISTANCE `{Number} : num := ofZ 60.

Definition MAX_DISTANCE `{Number} : num := ofZ 500.

Definition TRAIL_UPDATE_FREQ : nat := 5.

End PHYSICS_CONSTANTS.

(* ===================================================================== *)
(** ** [src/utils/Vector2.ts] *)
(* ===================================================================== *)

Section Vector2.
Context {N : Number}.
Local Open Scope num_scope.

Record Vector2 := mkVector2 { x : num; y : num }.

Definition zero : Vector2 := mkVector2 (ofZ 0) (ofZ 0).

Definition add (this v : Vector2) : Vector2 :=
  mkVector2 (x this + x v) (y this + y v).

Definition subtract (this v : Vector2) : Vector2 :=
  mkVector2 (x this - x v) (y this - y v).

Definition multiply (this : Vector2) (scalar : num) : Vector2 :=
  mkVector2 (x this * scalar) (y this * scalar).

Definition magnitude (this : Vector2) : num :=
  nsqrt (x this * x this + y this * y this).

Definition normalize (this : Vector2) : Vector2 :=
  let mag := magnitude this in
  if mag === ofZ 0 then zero
  else mkVector2 (x this / mag) (y this / mag).

Definition distanceTo (this v : Vector2) : num :=
  let dx := x this - x v in
  let dy := y this - y v in
  nsqrt (dx * dx + dy * dy).

End Vector2.

Arguments Vector2 : clear implicits.
Arguments Vector2 {N}.
Arguments mkVector2 {N} _ _.

(* ===================================================================== *)
(** ** [src/classes/ChargedObject.ts]: class [ChargedObject] *)
(* ===================================================================== *)

Section ChargedObject.
Context {N : Number}.
Local Open Scope num_scope.

(** [trailTimer] is the private frame counter; it only ever holds a small
    non-negative integer (it starts at 0, is incremented by one and is set
    back to 0), so it is a [nat] here. *)
Record ChargedObject := mkChargedObject {
  id : string;
  position : Vector2;
  velocity : Vector2;
  acceleration : Vector2;
  mass : num;
  charge : num;
  radius : num;
  isLocked : bool;
  trail : list Vector2;
  trailTimer : nat;
}.

(** Field assignments [obj.f = v]. *)
Definition set_position (v : Vector2) (o : ChargedObject) : ChargedObject :=
  mkChargedObject (id o) v (velocity o) (acceleration o) (mass o) (charge o)
    (radius o) (isLocked o) (trail o) (trailTimer o).

Definition set_velocity (v : Vector2) (o : ChargedObject) : ChargedObject :=
  mkChargedObject (id o) (position o) v (acceleration o) (mass o) (charge o)
    (radius o) (isLocked o) (trail o) (trailTimer o).

Definition set_acceleration (v : Vector2) (o : ChargedObject) : ChargedObject :=
  mkChargedObject (id o) (position o) (velocity o) v (mass o) (charge o)
    (radius o) (isLocked o) (trail o) (trailTimer o).

Definition set_trail (t : list Vector2) (o : ChargedObject) : ChargedObject :=
  mkChargedObject (id o) (position o) (velocity o) (acceleration o) (mass o)
    (charge o) (radius o) (isLocked o) t (trailTimer o).

Definition set_trailTimer (n : nat) (o : ChargedObject) : ChargedObject :=
  mkChargedObject (id o) (position o) (velocity o) (acceleration o) (mass o)
    (charge o) (radius o) (isLocked o) (trail o) n.

Definition set_isLocked (b : bool) (o : ChargedObject) : ChargedObject :=
  mkChargedObject (id o) (position o) (velocity o) (acceleration o) (mass o)
    (charge o) (radius o) b (trail o) (trailTimer o).

Definition set_mass (m : num) (o : ChargedObject) : ChargedObject :=
  mkChargedObject (id o) (position o) (velocity o) (acceleration o) m
    (charge o) (radius o) (isLocked o) (trail o) (trailTimer o).

Definition set_charge (q : num) (o : ChargedObject) : ChargedObject :=
  mkChargedObject (id o) (position o) (velocity o) (acceleration o) (mass o)
    q (radius o) (isLocked o) (trail o) (trailTimer o).

(** [constructor(id, x, y, mass, charge)]. *)
Definition newChargedObject (id0 : string) (x0 y0 mass0 charge0 : num)
  : ChargedObject :=
  {| id := id0;
     position := mkVector2 x0 y0;
     velocity := zero;
     acceleration := zero;
     mass := mass0;
     charge := charge0;
     radius := ofZ 20 + nsqrt mass0 * ofZ 2;
     isLocked := false;
     trail := [];
     trailTimer := 0 |}.

(** [applyForce(force)]. *)
Definition applyForce (force : Vector2) (this : ChargedObject) : ChargedObject :=
  if isLocked this then this
  else
    let accel := multiply force (ofZ 1 / mass this) in
    set_acceleration (add (acceleration this) accel) this.

(** [this.trail.push(p); if (this.trail.length > MAX_TRAIL_LENGTH)
    this.trail.shift()]. *)
Definition pushTrail (p : Vector2) (t : list Vector2) : list Vector2 :=
  let t1 := t ++ [p] in
  if Nat.ltb PHYSICS_CONSTANTS.MAX_TRAIL_LENGTH (length t1) then tail t1 else t1.

(** [updatePhysics(dt, friction)]. *)
Definition updatePhysics (dt friction : num) (this : ChargedObject)
  : ChargedObject :=
  if isLocked this then
    set_acceleration zero (set_velocity zero this)
  else
    let frictionFactor := nmax (ofZ 0) (ofZ 1 - friction * dt * ofZ 60) in
    let this := set_velocity (multiply (velocity this) frictionFactor) this in
    let this :=
      set_velocity (add (velocity this) (multiply (acceleration this) dt)) this in
    let this :=
      set_position (add (position this) (multiply (velocity this) dt)) this in
    let this := set_acceleration zero this in
    let this := set_trailTimer (S (trailTimer this)) this in
    if Nat.leb PHYSICS_CONSTANTS.TRAIL_UPDATE_FREQ (trailTimer this) then
      let p := mkVector2 (x (position this)) (y (position this)) in
      set_trailTimer 0 (set_trail (pushTrail p (trail this)) this)
    else this.

(** [reset(x, y)]. *)
Definition reset (x0 y0 : num) (this : ChargedObject) : ChargedObject :=
  let this := set_position (mkVector2 x0 y0) this in
  let this := set_velocity zero this in
  let this := set_acceleration zero this in
  set_trail [] this.

End ChargedObject.

Arguments ChargedObject : clear implicits.
Arguments ChargedObject {N}.
Arguments mkChargedObject {N} _ _ _ _ _ _ _ _ _ _.

(* ===================================================================== *)
(** ** [src/classes/ChargedObject.ts]: class [PhysicsEngine] *)
(* ===================================================================== *)

Section PhysicsEngine.
Context {N : Number}.
Local Open Scope num_scope.

Record Bounds := mkBounds { width : num; height : num }.

Record PhysicsEngine := mkPhysicsEngine {
  objects : list ChargedObject;
  friction : num;
  bounds : Bounds;
}.

Definition set_objects (os : list ChargedObject) (e : PhysicsEngine)
  : PhysicsEngine :=
  mkPhysicsEngine os (friction e) (bounds e).

Definition set_friction (f : num) (e : PhysicsEngine) : PhysicsEngine :=
  mkPhysicsEngine (objects e) f (bounds e).

Definition set_bounds (b : Bounds) (e : PhysicsEngine) : PhysicsEngine :=
  mkPhysicsEngine (objects e) (friction e) b.

(** Component assignments [v.x = a] and [v.y = a]. *)
Definition set_x (a : num) (v : Vector2) : Vector2 := mkVector2 a (y v).

Definition set_y (a : num) (v : Vector2) : Vector2 := mkVector2 (x v) a.

(** [initializeDefault()]. *)
Definition initializeDefault (this : PhysicsEngine) : PhysicsEngine :=
  let centerX := width (bounds this) / ofZ 2 in
  let centerY := height (bounds this) / ofZ 2 in
  let minDim := nmin (width (bounds this)) (height (bounds this)) in
  let separation := nmax (ofZ 150) (nmin (ofZ 300) (minDim * dec 6 10)) in
  let halfSep := separation / ofZ 2 in
  let this :=
    set_objects
      [ newChargedObject "obj1" (centerX - halfSep) centerY (ofZ 1) (ofZ 5);
        newChargedObject "obj2" (centerX + halfSep) centerY (ofZ 1) (- ofZ 5) ]
      this in
  set_friction (dec 1 100) this.

(** [constructor()]. *)
Definition newPhysicsEngine : PhysicsEngine :=
  initializeDefault
    {| objects := []; friction := dec 1 100;
       bounds := mkBounds (ofZ 800) (ofZ 600) |}.

(** [resize(width, height)]. *)
Definition resize (width0 height0 : num) (this : PhysicsEngine)
  : PhysicsEngine :=
  let dx := (width0 - width (bounds this)) / ofZ 2 in
  let dy := (height0 - height (bounds this)) / ofZ 2 in
  let this := set_bounds (mkBounds width0 height0) this in
  let shift (pt : Vector2) := mkVector2 (x pt + dx) (y pt + dy) in
  set_objects
    (map (fun obj =>
            set_trail (map shift (trail obj))
              (set_position (shift (position obj)) obj))
         (objects this))
    this.

(** The body of the double loop of [update], for the pair
    [objA = this.objects[i]], [objB = this.objects[j]]: the clamped
    distance, the magnitude [forceMag] and the two forces. *)
Definition pairDist (objA objB : ChargedObject) : num :=
  let rVec := subtract (position objB) (position objA) in
  let dist := magnitude rVec in
  nmax dist PHYSICS_CONSTANTS.MIN_DISTANCE.

Definition forceMag (objA objB : ChargedObject) : num :=
  let dist := pairDist objA objB in
  let qProduct := charge objA * charge objB in
  (PHYSICS_CONSTANTS.K_COULOMB * nabs qProduct) / (dist * dist).

Definition forceOnA (objA objB : ChargedObject) : Vector2 :=
  let rVec := subtract (position objB) (position objA) in
  let dir := normalize rVec in
  let qProduct := charge objA * charge objB in
  if qProduct <? ofZ 0 then multiply dir (forceMag objA objB)
  else if qProduct >? ofZ 0 then multiply dir (- forceMag objA objB)
  else zero.

Definition forceOnB (objA objB : ChargedObject) : Vector2 :=
  multiply (forceOnA objA objB) (- ofZ 1).

(** One iteration of the inner loop: both [applyForce] calls mutate the
    objects stored at [i] and [j] (the loop has [i < j], two distinct
    objects). *)
Definition interact (i j : nat) (objs : list ChargedObject)
  : list ChargedObject :=
  match objs !! i, objs !! j with
  | Some objA, Some objB =>
      <[j := applyForce (forceOnB objA objB) objB]>
        (<[i := applyForce (forceOnA objA objB) objA]> objs)
  | _, _ => objs
  end.

(** [for (let j = i + 1; j < this.objects.length; j++)]. *)
Definition forcesFrom (i : nat) (objs : list ChargedObject)
  : list ChargedObject :=
  fold_left (fun os j => interact i j os) (seq (S i) (length objs - S i)) objs.

(** [for (let i = 0; i < this.objects.length; i++)]: step 2 of [update]. *)
Definition computeForces (objs : list ChargedObject) : list ChargedObject :=
  fold_left (fun os i => forcesFrom i os) (seq 0 (length objs)) objs.

(** [resolveBounds(obj)]. *)
Definition resolveBounds (this : PhysicsEngine) (obj : ChargedObject)
  : ChargedObject :=
  let padding := radius obj in
  let obj :=
    if x (position obj) <? padding then
      let obj := set_position (set_x padding (position obj)) obj in
      if x (velocity obj) <? ofZ 0 then
        set_velocity (set_x (x (velocity obj) * - dec 5 10) (velocity obj)) obj
      else obj
    else if x (position obj) >? width (bounds this) - padding then
      let obj :=
        set_position (set_x (width (bounds this) - padding) (position obj)) obj in
      if x (velocity obj) >? ofZ 0 then
        set_velocity (set_x (x (velocity obj) * - dec 5 10) (velocity obj)) obj
      else obj
    else obj in
  if y (position obj) <? padding then
    let obj := set_position (set_y padding (position obj)) obj in
    if y (velocity obj) <? ofZ 0 then
      set_velocity (set_y (y (velocity obj) * - dec 5 10) (velocity obj)) obj
    else obj
  else if y (position obj) >? height (bounds this) - padding then
    let obj :=
      set_position (set_y (height (bounds this) - padding) (position obj)) obj in
    if y (velocity obj) >? ofZ 0 then
      set_velocity (set_y (y (velocity obj) * - dec 5 10) (velocity obj)) obj
    else obj
  else obj.

(** [update(dt)]: the force pass, then [updatePhysics] and [resolveBounds]
    on every object. *)
Definition update (dt : num) (this : PhysicsEngine) : PhysicsEngine :=
  let objs := computeForces (objects this) in
  set_objects
    (map (fun obj => resolveBounds this (updatePhysics dt (friction this) obj))
         objs)
    this.

(** [setDistance(dist)]; [objA] and [objB] are [this.objects[0]] and
    [this.objects[1]], and fewer than two objects is the early return. *)
Definition setDistance (dist : num) (this : PhysicsEngine) : PhysicsEngine :=
  match objects this with
  | objA :: objB :: rest =>
      let center :=
        multiply (add (position objA) (position objB)) (dec 5 10) in
      let halfDist := dist / ofZ 2 in
      let dir := normalize (subtract (position objB) (position objA)) in
      let dir :=
        if magnitude dir === ofZ 0 then mkVector2 (ofZ 1) (ofZ 0) else dir in
      let objA := set_position (subtract center (multiply dir halfDist)) objA in
      let objB := set_position (add center (multiply dir halfDist)) objB in
      let objA := set_velocity zero objA in
      let objB := set_velocity zero objB in
      let objA := set_acceleration zero objA in
      let objB := set_acceleration zero objB in
      let objA := resolveBounds this objA in
      let objB := resolveBounds this objB in
      set_objects (objA :: objB :: rest) this
  | _ => this
  end.

(** A run of the render loop: one [update] per frame. *)
Definition steps (dts : list num) (this : PhysicsEngine) : PhysicsEngine :=
  fold_left (fun e dt => update dt e) dts this.

End PhysicsEngine.

Arguments Bounds : clear implicits.
Arguments Bounds {N}.
Arguments PhysicsEngine : clear implicits.
Arguments PhysicsEngine {N}.
Arguments mkBounds {N} _ _.
Arguments mkPhysicsEngine {N} _ _ _.

(** Vectors of each instance. *)
Definition fvec (a b : float) : @Vector2 JS.number := mkVector2 (N := JS.number) a b.

Definition rvec (a b : R) : @Vector2 Ideal.number := mkVector2 (N := Ideal.number) a b.

(** [new ChargedObject(id, x, y, mass, charge)] of each instance. *)
Definition fobject (id0 : string) (x0 y0 mass0 charge0 : float)
  : @ChargedObject JS.number :=
  newChargedObject (N := JS.number) id0 x0 y0 mass0 charge0.

Definition robject (id0 : string) (x0 y0 mass0 charge0 : R)
  : @ChargedObject Ideal.number :=
  newChargedObject (N := Ideal.number) id0 x0 y0 mass0 charge0.

(* ===================================================================== *)
(** ** Definitions the statements are written with *)
(* ===================================================================== *)

Section Observations.
Context {N : Number}.
Local Open Scope num_scope.
Implicit Types (o objA objB : ChargedObject) (l : list ChargedObject).

(** Several [applyForce] calls in a row (superposition). *)
Definition applyForces (forces : list Vector2) (o : ChargedObject)
  : ChargedObject :=
  fold_left (fun o f => applyForce f o) forces o.

(** A sequence of [updatePhysics(dt, friction)] calls. *)
Definition integrates (inputs : list (num * num)) (o : ChargedObject)
  : ChargedObject :=
  fold_left (fun o i => updatePhysics (fst i) (snd i) o) inputs o.

(** The force pass writes accelerations and nothing else. *)
Definition eraseAccel o : ChargedObject := set_acceleration zero o.

(** Two object lists that agree everywhere but at index [j], where they
    hold objects of the same position and charge. *)
Definition agreeBut (j : nat) (l1 l2 : list ChargedObject) : Prop :=
  length l1 = length l2
  /\ forall k o1 o2, l1 !! k = Some o1 -> l2 !! k = Some o2 ->
       position o1 = position o2 /\ charge o1 = charge o2
       /\ (k <> j -> o1 = o2).

(** Setting the lock flag of the object at index [j]. *)
Definition lockAt (j : nat) (b : bool) l : list ChargedObject :=
  alter (set_isLocked b) j l.

(** The clamp [resolveBounds] applies to one coordinate. *)
Definition clamp (lo hi a : num) : num :=
  if a <? lo then lo else if a >? hi then hi else a.

(** The direction [setDistance] separates along: the current alignment, or
    [(1, 0)] when [normalize] returned a vector of magnitude 0. *)
Definition separationDir objA objB : Vector2 :=
  let dir := normalize (subtract (position objB) (position objA)) in
  if magnitude dir === ofZ 0 then mkVector2 (ofZ 1) (ofZ 0) else dir.

(** The two positions [setDistance] assigns before [resolveBounds] runs. *)
Definition separationTargets (dist : num) objA objB : Vector2 * Vector2 :=
  let center := multiply (add (position objA) (position objB)) (dec 5 10) in
  let halfDist := dist / ofZ 2 in
  let dir := separationDir objA objB in
  (subtract center (multiply dir halfDist), add center (multiply dir halfDist)).

(** The negation of a vector, component by component. *)
Definition negate (v : Vector2) : Vector2 :=
  mkVector2 (- x v)%num (- y v)%num.

(** The fields of a particle that only the constructor and the sliders of
    [App] write. *)
Definition fixedFields (o : ChargedObject) : string * num * num * num * bool :=
  (id o, mass o, charge o, radius o, isLocked o).

End Observations.

Section IdealObservations.
Local Open Scope R_scope.
Implicit Types (a b u f : @Vector2 Ideal.number)
  (o : @ChargedObject Ideal.number) (e : @PhysicsEngine Ideal.number).

(** [u] is the unit vector from [a] to [b]. *)
Definition unitDirection a b u : Prop :=
  magnitude u = 1 /\ subtract b a = multiply u (magnitude (subtract b a)).

(** [f] is a positive (negative) multiple of the unit vector from [a] to [b]. *)
Definition pointsToward f a b : Prop :=
  exists (c : R) u, 0 < c /\ unitDirection a b u /\ f = multiply u c.

Definition pointsAway f a b : Prop :=
  exists (c : R) u, c < 0 /\ unitDirection a b u /\ f = multiply u c.

(** The position of [o] lies in
    [[radius, width - radius] x [radius, height - radius]]. *)
Definition inBounds e o : Prop :=
  (radius o <= x (position o) <= width (bounds e) - radius o)
  /\ (radius o <= y (position o) <= height (bounds e) - radius o).

(** Every particle's diameter fits the canvas, on both axes. *)
Definition fits e : Prop :=
  Forall (fun r : R => r <= width (bounds e) - r /\ r <= height (bounds e) - r)
         (radius <$> objects e).

End IdealObservations.

Section JSObservations.
Implicit Types (e : @PhysicsEngine JS.number) (o : @ChargedObject JS.number).

(** Containment of a binary64 particle, with IEEE [<=]. *)
Definition inBoundsF e o : bool :=
  (radius o <=? x (position o))%float
  && (x (position o) <=? width (bounds e) - radius o)%float
  && (radius o <=? y (position o))%float
  && (y (position o) <=? height (bounds e) - radius o)%float.

(** The diameter of [o] fits the canvas of [e], in binary64. *)
Definition fitsF e o : bool :=
  (radius o <=? width (bounds e) - radius o)%float
  && (radius o <=? height (bounds e) - radius o)%float.


End JSObservations.

(** A specified float that is zero or finite: neither infinite nor NaN. *)
Definition SFfin (s : spec_float) : bool :=
  match s with
  | S754_zero _ | S754_finite _ _ _ => true
  | _ => false
  end.


(** A specified float that is not NaN and has its sign bit clear. *)
Definition SFnonneg (s : spec_float) : bool :=
  match s with
  | S754_zero false | S754_infinity false | S754_finite false _ _ => true
  | _ => false
  end.

(** A specified float one can divide a finite number by: not NaN, not zero. *)
Definition SFdivisor (s : spec_float) : bool :=
  match s with
  | S754_infinity _ | S754_finite _ _ _ => true
  | _ => false
  end.

(** Unfolding of the arithmetic of each instance. *)
Ltac ideal :=
  cbn [num ofZ nadd nsub nmul ndiv nopp nsqrt nabs nmax nmin nltb neqb
       Ideal.number] in *;
  change (@num Ideal.number) with R in *.

Ltac js :=
  cbn [num ofZ nadd nsub nmul ndiv nopp nsqrt nabs nmax nmin nltb neqb
       JS.number] in *;
  change (@num JS.number) with float in *.

(** Case analysis on a test whose condition holds no other test. *)
Ltac case_if :=
  match goal with
  | |- context [if ?b then _ else _] =>
      lazymatch b with
      | context [if _ then _ else _] => fail
      | _ => destruct b eqn:?
      end
  end;
  cbn [position velocity acceleration radius set_position set_velocity
       set_acceleration set_x set_y x y] in *.

(* ===================================================================== *)
(** ** The callers: [src/App.tsx] and the two canvas components *)
(* ===================================================================== *)

Section Callers.
Context {N : Number}.
Local Open Scope num_scope.

(** [App]: the frame time of the render loop,
    [Math.min((time - lastTime) / 1000, 0.05)]. *)
Definition frameDt (time lastTime : num) : num :=
  nmin ((time - lastTime) / ofZ 1000) (dec 5 100).

(** [App]: [currentDist], with [obj1] and [obj2] the first two objects of
    the engine (either may be undefined). *)
Definition currentDist (engine : PhysicsEngine) : num :=
  match objects engine !! 0, objects engine !! 1 with
  | Some obj1, Some obj2 => distanceTo (position obj1) (position obj2)
  | _, _ => ofZ 0
  end.

(** [App]: [calculateForceMag()], the force readout. *)
Definition calculateForceMag (engine : PhysicsEngine) : num :=
  match objects engine !! 0, objects engine !! 1 with
  | Some obj1, Some obj2 =>
      let qProduct := nabs (charge obj1 * charge obj2) in
      let dist := nmax (currentDist engine) PHYSICS_CONSTANTS.MIN_DISTANCE in
      (PHYSICS_CONSTANTS.K_COULOMB * qProduct) / (dist * dist)
  | _, _ => ofZ 0
  end.

(** [App]: one run of the interval callback of [handleGround]; the flag
    tells that [clearInterval] was called. *)
Definition groundTick (obj : ChargedObject) : ChargedObject * bool :=
  if nabs (charge obj) <? dec 1 10 then (set_charge (ofZ 0) obj, true)
  else (set_charge (charge obj * dec 8 10) obj, false).

(** The callback fired up to [n] times, until the interval is cleared. *)
Fixpoint groundTicks (n : nat) (obj : ChargedObject) : ChargedObject * bool :=
  match n with
  | O => (obj, false)
  | S n' =>
      let (obj', cleared) := groundTick obj in
      if cleared then (obj', true) else groundTicks n' obj'
  end.

(** [CanvasRenderer]: the end point of the arrow [drawForceArrow] draws
    from [objA.position], or nothing on its early returns. *)
Definition drawForceArrow (showArrows : bool) (forceScale : num)
    (objA objB : ChargedObject) : option Vector2 :=
  if negb showArrows then None
  else
    let rVec := subtract (position objB) (position objA) in
    let dist := magnitude rVec in
    let dist := nmax dist PHYSICS_CONSTANTS.MIN_DISTANCE in
    let qProduct := charge objA * charge objB in
    if qProduct === ofZ 0 then None
    else
      let forceMag :=
        (PHYSICS_CONSTANTS.K_COULOMB * nabs qProduct) / (dist * dist) in
      let arrowLength := nmin (forceMag * dec 15 10 * forceScale) (ofZ 300) in
      if arrowLength <? ofZ 5 then None
      else
        let dir := normalize rVec in
        Some (if qProduct >? ofZ 0
              then subtract (position objA) (multiply dir arrowLength)
              else add (position objA) (multiply dir arrowLength)).

(** [ForceGraph]: the canvas point of the current state, the marker on the
    curve, or nothing in the zero charge case. *)
Definition graphMarker (distance q1 q2 width0 height0 : num) : option (num * num) :=
  let padLeft := ofZ 40 in
  let padBottom := ofZ 20 in
  let padRight := ofZ 10 in
  let padTop := ofZ 15 in
  let graphW := width0 - padLeft - padRight in
  let graphH := height0 - padTop - padBottom in
  let minX := PHYSICS_CONSTANTS.MIN_DISTANCE in
  let maxX := PHYSICS_CONSTANTS.MAX_DISTANCE in
  let qProduct := nabs (q1 * q2) in
  if qProduct <? dec 1 10 then None
  else
    let maxTheoreticalForce :=
      (PHYSICS_CONSTANTS.K_COULOMB * qProduct) / (minX * minX) in
    let mapX (a : num) := padLeft + ((a - minX) / (maxX - minX)) * graphW in
    let mapY (f : num) := (padTop + graphH) - (f / maxTheoreticalForce) * graphH in
    let clampedDist := nmax minX (nmin maxX distance) in
    let currentF :=
      (PHYSICS_CONSTANTS.K_COULOMB * qProduct) / (clampedDist * clampedDist) in
    Some (mapX clampedDist, mapY currentF).

End Callers.

(* ===================================================================== *)
(** ** Evaluation on binary64 *)
(* ===================================================================== *)

(** The decimal literals of the source: [0.5], [0.6] and [0.01]. *)
Example js_dec_half : @dec JS.number 5 10 = 0.5%float.
Proof. reflexivity. Qed.

Example js_dec_six_tenths : @dec JS.number 6 10 = 0x1.3333333333333p-1%float.
Proof. reflexivity. Qed.

Example js_dec_hundredth : @dec JS.number 1 100 = 0x1.47ae147ae147bp-7%float.
Proof. reflexivity. Qed.

(** A particle left of the canvas and moving left is put back at
    [x = radius] with half its speed, reversed. *)
Example js_bounce :
  let o := set_velocity (fvec (-8) 0) (fobject "p" 10 300 1 5) in
  let o' := resolveBounds (@newPhysicsEngine JS.number) o in
  position o' = fvec 22 300 /\ velocity o' = fvec 4 0.
Proof. split; vm_compute; reflexivity. Qed.

Example js_norm_3_4 :
  normalize (fvec 3 4) = fvec (3 / 5) (4 / 5).
Proof. vm_compute. reflexivity. Qed.

Example js_default_positions :
  map (fun o => (position o, radius o)) (objects (@newPhysicsEngine JS.number))
  = [ (fvec 250 300, 22%float); (fvec 550 300, 22%float) ].
Proof. vm_compute. reflexivity. Qed.

(* ===================================================================== *)
(** ** Facts about [ChargedObject], for every arithmetic *)
(* ===================================================================== *)

Section ChargedObjectFacts.
Context {N : Number}.
Implicit Types (o : ChargedObject) (v p : Vector2) (t : list Vector2).

Lemma vector_eta v : mkVector2 (x v) (y v) = v.
Proof. now destruct v. Qed.

Lemma applyForce_locked force o : isLocked o = true -> applyForce force o = o.
Proof. intros L. unfold applyForce. now rewrite L. Qed.

Lemma applyForces_locked forces o :
  isLocked o = true -> applyForces forces o = o.
Proof.
  intros L. unfold applyForces.
  induction forces as [|f fs IH]; simpl; [reflexivity|].
  now rewrite applyForce_locked.
Qed.

Lemma updatePhysics_locked dt fr o :
  isLocked o = true ->
  updatePhysics dt fr o = set_acceleration zero (set_velocity zero o).
Proof. intros L. unfold updatePhysics. now rewrite L. Qed.

Lemma updatePhysics_isLocked dt fr o :
  isLocked (updatePhysics dt fr o) = isLocked o.
Proof.
  unfold updatePhysics.
  destruct (isLocked o) eqn:L; [exact L|]. cbv zeta.
  match goal with |- context [if ?b then _ else _] => destruct b end; exact L.
Qed.

(** The two cases of the trail update of an unlocked particle. *)
Lemma updatePhysics_sample dt fr o :
  isLocked o = false ->
  let o' := updatePhysics dt fr o in
  if Nat.leb PHYSICS_CONSTANTS.TRAIL_UPDATE_FREQ (S (trailTimer o))
  then trailTimer o' = 0 /\ trail o' = pushTrail (position o') (trail o)
  else trailTimer o' = S (trailTimer o) /\ trail o' = trail o.
Proof.
  intros L. unfold updatePhysics. rewrite L. cbv zeta.
  change (trailTimer (set_trailTimer ?n _)) with n.
  destruct (Nat.leb _ _); simpl; split; reflexivity.
Qed.

Lemma pushTrail_length p t :
  length t <= PHYSICS_CONSTANTS.MAX_TRAIL_LENGTH ->
  length (pushTrail p t) <= PHYSICS_CONSTANTS.MAX_TRAIL_LENGTH.
Proof.
  unfold pushTrail, PHYSICS_CONSTANTS.MAX_TRAIL_LENGTH. intros Hle.
  destruct (Nat.ltb_spec 50 (length (t ++ [p]))) as [Hlt|Hge]; [|exact Hge].
  rewrite length_app in Hlt. simpl in Hlt.
  destruct t as [|q t]; simpl in *; [lia|].
  rewrite length_app. simpl. lia.
Qed.

(** Push, then shift when over capacity, is: drop the oldest entry of a
    full trail, then append. *)
Lemma pushTrail_fifo p t :
  length t <= PHYSICS_CONSTANTS.MAX_TRAIL_LENGTH ->
  pushTrail p t =
  (if Nat.ltb (length t) PHYSICS_CONSTANTS.MAX_TRAIL_LENGTH then t else tail t)
  ++ [p].
Proof.
  unfold pushTrail, PHYSICS_CONSTANTS.MAX_TRAIL_LENGTH. intros Hle.
  rewrite length_app. simpl.
  destruct (Nat.ltb_spec 50 (length t + 1)), (Nat.ltb_spec (length t) 50);
    try lia; try reflexivity.
  destruct t; simpl in *; [lia|reflexivity].
Qed.

Lemma integrates_snoc inputs i o :
  integrates (inputs ++ [i]) o = updatePhysics (fst i) (snd i) (integrates inputs o).
Proof. unfold integrates. now rewrite fold_left_app. Qed.

Lemma integrates_isLocked inputs o :
  isLocked (integrates inputs o) = isLocked o.
Proof.
  induction inputs as [|i inputs IH] using rev_ind; [reflexivity|].
  now rewrite integrates_snoc, updatePhysics_isLocked.
Qed.

Lemma integrates_locked_trail inputs o :
  isLocked o = true -> trail (integrates inputs o) = trail o.
Proof.
  intros L. induction inputs as [|i inputs IH] using rev_ind; [reflexivity|].
  rewrite integrates_snoc, updatePhysics_locked; [exact IH|].
  now rewrite integrates_isLocked.
Qed.

(** The frame counter of an unlocked particle counts calls modulo 5. *)
Lemma integrates_trailTimer inputs o :
  isLocked o = false ->
  trailTimer o < PHYSICS_CONSTANTS.TRAIL_UPDATE_FREQ ->
  trailTimer (integrates inputs o)
  = (trailTimer o + length inputs) mod PHYSICS_CONSTANTS.TRAIL_UPDATE_FREQ.
Proof.
  unfold PHYSICS_CONSTANTS.TRAIL_UPDATE_FREQ. intros L Ht.
  induction inputs as [|i inputs IH] using rev_ind.
  - cbn [integrates fold_left length].
    rewrite Nat.add_0_r, Nat.mod_small; [reflexivity|exact Ht].
  - rewrite integrates_snoc, length_app. simpl length.
    pose proof (updatePhysics_sample (fst i) (snd i) (integrates inputs o)) as Hs.
    rewrite integrates_isLocked in Hs. specialize (Hs L). cbv zeta in Hs.
    unfold PHYSICS_CONSTANTS.TRAIL_UPDATE_FREQ in Hs. rewrite IH in Hs.
    pose proof (Nat.mod_upper_bound (trailTimer o + length inputs) 5) as Hb.
    replace (trailTimer o + (length inputs + 1))
      with (S (trailTimer o + length inputs)) by lia.
    pose proof (Nat.div_mod_eq (trailTimer o + length inputs) 5) as E1.
    pose proof (Nat.div_mod_eq (S (trailTimer o + length inputs)) 5) as E2.
    pose proof (Nat.mod_upper_bound (S (trailTimer o + length inputs)) 5) as Hb2.
    destruct (Nat.leb_spec 5 (S ((trailTimer o + length inputs) mod 5)));
      destruct Hs as [-> _]; lia.
Qed.

Lemma integrates_trail_length inputs o :
  length (trail o) <= PHYSICS_CONSTANTS.MAX_TRAIL_LENGTH ->
  length (trail (integrates inputs o)) <= PHYSICS_CONSTANTS.MAX_TRAIL_LENGTH.
Proof.
  intros Hle. destruct (isLocked o) eqn:L.
  - now rewrite integrates_locked_trail.
  - induction inputs as [|i inputs IH] using rev_ind; [exact Hle|].
    rewrite integrates_snoc.
    pose proof (updatePhysics_sample (fst i) (snd i) (integrates inputs o)) as Hs.
    rewrite integrates_isLocked in Hs. specialize (Hs L). cbv zeta in Hs.
    destruct (Nat.leb _ _); destruct Hs as [_ ->]; [|exact IH].
    now apply pushTrail_length.
Qed.

(** No sample is taken while the frame counter stays below 5. *)
Lemma integrates_trail_unsampled inputs o :
  isLocked o = false ->
  trailTimer o + length inputs < PHYSICS_CONSTANTS.TRAIL_UPDATE_FREQ ->
  trail (integrates inputs o) = trail o.
Proof.
  unfold PHYSICS_CONSTANTS.TRAIL_UPDATE_FREQ. intros L.
  induction inputs as [|i inputs IH] using rev_ind; [reflexivity|].
  rewrite length_app. simpl length. intros Hlt.
  rewrite integrates_snoc.
  pose proof (updatePhysics_sample (fst i) (snd i) (integrates inputs o)) as Hs.
  rewrite integrates_isLocked in Hs. specialize (Hs L). cbv zeta in Hs.
  unfold PHYSICS_CONSTANTS.TRAIL_UPDATE_FREQ in Hs.
  rewrite integrates_trailTimer in Hs by (unfold PHYSICS_CONSTANTS.TRAIL_UPDATE_FREQ; lia || exact L).
  unfold PHYSICS_CONSTANTS.TRAIL_UPDATE_FREQ in Hs.
  rewrite Nat.mod_small in Hs by lia.
  destruct (Nat.leb_spec 5 (S (trailTimer o + length inputs))); [lia|].
  destruct Hs as [_ ->]. apply IH. lia.
Qed.

(** The call on which the counter reaches 5 appends the new position. *)
Lemma integrates_trail_sampled inputs i o :
  isLocked o = false ->
  trailTimer o + length inputs = 4 ->
  trail (integrates (inputs ++ [i]) o)
  = pushTrail (position (integrates (inputs ++ [i]) o)) (trail o).
Proof.
  intros L Hlen. rewrite integrates_snoc.
  pose proof (updatePhysics_sample (fst i) (snd i) (integrates inputs o)) as Hs.
  rewrite integrates_isLocked in Hs. specialize (Hs L). cbv zeta in Hs.
  unfold PHYSICS_CONSTANTS.TRAIL_UPDATE_FREQ in Hs.
  rewrite integrates_trailTimer in Hs by (unfold PHYSICS_CONSTANTS.TRAIL_UPDATE_FREQ; lia || exact L).
  unfold PHYSICS_CONSTANTS.TRAIL_UPDATE_FREQ in Hs.
  rewrite Hlen in Hs. change (Nat.leb 5 (S (4 mod 5))) with true in Hs.
  destruct Hs as [_ ->].
  rewrite integrates_trail_unsampled; [reflexivity|exact L|].
  unfold PHYSICS_CONSTANTS.TRAIL_UPDATE_FREQ. lia.
Qed.

Lemma applyForce_position force o : position (applyForce force o) = position o.
Proof. unfold applyForce. now destruct (isLocked o). Qed.

Lemma applyForce_charge force o : charge (applyForce force o) = charge o.
Proof. unfold applyForce. now destruct (isLocked o). Qed.

Lemma updatePhysics_radius dt fr o : radius (updatePhysics dt fr o) = radius o.
Proof.
  unfold updatePhysics. cbv zeta.
  repeat match goal with
         | |- context [if ?b then _ else _] => destruct b
         end; reflexivity.
Qed.

End ChargedObjectFacts.

(* ===================================================================== *)
(** ** Facts about the force pass, for every arithmetic *)
(* ===================================================================== *)

Section ForcePassFacts.
Context {N : Number}.
Implicit Types (o : ChargedObject) (l : list ChargedObject).

Lemma eraseAccel_applyForce force o :
  eraseAccel (applyForce force o) = eraseAccel o.
Proof. unfold applyForce. now destruct (isLocked o). Qed.

Lemma fold_left_preserves {A B C} (F : A -> C) (g : A -> B -> A) ks a :
  (forall a k, F (g a k) = F a) -> F (fold_left g ks a) = F a.
Proof.
  intros Hg. revert a. induction ks as [|k ks IH]; intros a; simpl.
  - reflexivity.
  - now rewrite IH, Hg.
Qed.

Lemma interact_eraseAccel i j l :
  eraseAccel <$> interact i j l = eraseAccel <$> l.
Proof.
  unfold interact.
  destruct (l !! i) as [objA|] eqn:HA; [|reflexivity].
  destruct (l !! j) as [objB|] eqn:HB; [|reflexivity].
  rewrite !list_fmap_insert, !eraseAccel_applyForce.
  rewrite (list_insert_id _ i).
  - apply list_insert_id. rewrite list_lookup_fmap, HB. reflexivity.
  - rewrite list_lookup_fmap, HA. reflexivity.
Qed.

Lemma forcesFrom_eraseAccel i l :
  eraseAccel <$> forcesFrom i l = eraseAccel <$> l.
Proof.
  unfold forcesFrom.
  apply (fold_left_preserves (fmap eraseAccel)). intros a k.
  apply interact_eraseAccel.
Qed.

Lemma computeForces_eraseAccel l :
  eraseAccel <$> computeForces l = eraseAccel <$> l.
Proof.
  unfold computeForces.
  apply (fold_left_preserves (fmap eraseAccel)). intros a k.
  apply forcesFrom_eraseAccel.
Qed.

Lemma computeForces_length l : length (computeForces l) = length l.
Proof.
  rewrite <- (length_fmap eraseAccel), computeForces_eraseAccel.
  apply length_fmap.
Qed.

Lemma computeForces_lookup l k o' :
  computeForces l !! k = Some o' ->
  exists o, l !! k = Some o /\ eraseAccel o' = eraseAccel o.
Proof.
  intros Hk.
  assert (H : (eraseAccel <$> computeForces l) !! k = Some (eraseAccel o'))
    by (rewrite list_lookup_fmap, Hk; reflexivity).
  rewrite computeForces_eraseAccel, list_lookup_fmap in H.
  destruct (l !! k) as [o|]; [|discriminate].
  exists o. split; [reflexivity|]. simpl in H. congruence.
Qed.

Lemma eraseAccel_radius o1 o2 :
  eraseAccel o1 = eraseAccel o2 -> radius o1 = radius o2.
Proof.
  intros H. change (radius (eraseAccel o1) = radius (eraseAccel o2)).
  now rewrite H.
Qed.

Lemma computeForces_radii (l : list ChargedObject) :
  radius <$> computeForces l = radius <$> l.
Proof.
  apply list_eq. intros k. rewrite !list_lookup_fmap.
  destruct (computeForces l !! k) as [o'|] eqn:Hk.
  - destruct (computeForces_lookup l k o' Hk) as (o & -> & He).
    simpl. f_equal. now apply eraseAccel_radius.
  - apply lookup_ge_None in Hk. rewrite computeForces_length in Hk.
    apply lookup_ge_None in Hk. now rewrite Hk.
Qed.

(** The pairwise force reads positions and charges only. *)
Lemma forceOnA_ext (a1 b1 a2 b2 : ChargedObject) :
  position a1 = position a2 -> charge a1 = charge a2 ->
  position b1 = position b2 -> charge b1 = charge b2 ->
  forceOnA a1 b1 = forceOnA a2 b2.
Proof.
  intros Hpa Hqa Hpb Hqb.
  unfold forceOnA, forceMag, pairDist. now rewrite Hpa, Hqa, Hpb, Hqb.
Qed.

Lemma interact_agreeBut j a b l1 l2 :
  agreeBut j l1 l2 -> agreeBut j (interact a b l1) (interact a b l2).
Proof.
  intros [Hlen Hag]. unfold interact.
  destruct (l1 !! a) as [a1|] eqn:Ha1; destruct (l2 !! a) as [a2|] eqn:Ha2;
    try (apply lookup_lt_Some in Ha1; apply lookup_ge_None in Ha2; lia);
    try (apply lookup_lt_Some in Ha2; apply lookup_ge_None in Ha1; lia);
    [|split; assumption].
  destruct (l1 !! b) as [b1|] eqn:Hb1; destruct (l2 !! b) as [b2|] eqn:Hb2;
    try (apply lookup_lt_Some in Hb1; apply lookup_ge_None in Hb2; lia);
    try (apply lookup_lt_Some in Hb2; apply lookup_ge_None in Hb1; lia);
    [|split; assumption].
  destruct (Hag a a1 a2 Ha1 Ha2) as (Hpa & Hqa & Hea).
  destruct (Hag b b1 b2 Hb1 Hb2) as (Hpb & Hqb & Heb).
  unfold forceOnB. rewrite (forceOnA_ext a1 b1 a2 b2) by assumption.
  split; [now rewrite !length_insert|].
  intros k o1 o2.
  rewrite !list_lookup_insert, !length_insert.
  apply lookup_lt_Some in Ha1, Ha2, Hb1, Hb2.
  repeat case_decide; try lia; intros E1 E2; destruct_and?.
  - inversion E1; inversion E2; subst.
    rewrite !applyForce_position, !applyForce_charge.
    repeat split; try assumption. intros Hk. now rewrite (Heb Hk).
  - inversion E1; inversion E2; subst.
    rewrite !applyForce_position, !applyForce_charge.
    repeat split; try assumption. intros Hk. now rewrite (Hea Hk).
  - now apply (Hag k).
Qed.

Lemma fold_left_agreeBut j (g : list ChargedObject -> nat -> list ChargedObject)
    ks l1 l2 :
  (forall a1 a2 k, agreeBut j a1 a2 -> agreeBut j (g a1 k) (g a2 k)) ->
  agreeBut j l1 l2 -> agreeBut j (fold_left g ks l1) (fold_left g ks l2).
Proof.
  intros Hg. revert l1 l2. induction ks as [|k ks IH]; intros l1 l2 H; simpl.
  - exact H.
  - apply IH, Hg, H.
Qed.

Lemma forcesFrom_agreeBut j i l1 l2 :
  agreeBut j l1 l2 -> agreeBut j (forcesFrom i l1) (forcesFrom i l2).
Proof.
  intros H. unfold forcesFrom. rewrite (proj1 H).
  apply fold_left_agreeBut; [|exact H].
  intros a1 a2 k. apply interact_agreeBut.
Qed.

Lemma computeForces_agreeBut j l1 l2 :
  agreeBut j l1 l2 -> agreeBut j (computeForces l1) (computeForces l2).
Proof.
  intros H. unfold computeForces. rewrite (proj1 H).
  apply fold_left_agreeBut; [|exact H].
  intros a1 a2 k. apply forcesFrom_agreeBut.
Qed.

Lemma lockAt_agreeBut j b1 b2 l : agreeBut j (lockAt j b1 l) (lockAt j b2 l).
Proof.
  unfold lockAt. split; [now rewrite !length_alter|].
  intros k o1 o2. rewrite !list_lookup_alter.
  case_decide as Hk.
  - subst k. destruct (l !! j) as [o|]; simpl; [|discriminate].
    intros H1 H2. inversion H1; inversion H2; subst. simpl.
    repeat split; try reflexivity. intros Hne. now contradiction Hne.
  - intros H1 H2. rewrite H1 in H2. inversion H2; subst. auto.
Qed.

End ForcePassFacts.

(* ===================================================================== *)
(** ** Facts about [resolveBounds], [update] and [setDistance], for every arithmetic *)
(* ===================================================================== *)

Section EngineFacts.
Context {N : Number}.
Local Open Scope num_scope.
Implicit Types (o objA objB : ChargedObject) (e : PhysicsEngine).

Lemma resolveBounds_position e o :
  position (resolveBounds e o)
  = mkVector2
      (clamp (radius o) (width (bounds e) - radius o) (x (position o)))
      (clamp (radius o) (height (bounds e) - radius o) (y (position o))).
Proof.
  unfold resolveBounds, clamp. cbv zeta.
  repeat case_if; try reflexivity; try congruence.
  symmetry. apply vector_eta.
Qed.

Lemma resolveBounds_radius e o : radius (resolveBounds e o) = radius o.
Proof.
  unfold resolveBounds. cbv zeta. repeat case_if; reflexivity.
Qed.

Lemma resolveBounds_acceleration e o :
  acceleration (resolveBounds e o) = acceleration o.
Proof.
  unfold resolveBounds. cbv zeta. repeat case_if; reflexivity.
Qed.

(** A particle at rest stays at rest: the bounce only scales a non-zero
    velocity component. *)
Lemma resolveBounds_velocity_zero e o :
  (ofZ 0 <? ofZ 0) = false ->
  velocity o = zero -> velocity (resolveBounds e o) = zero.
Proof.
  intros H0 Hv. unfold resolveBounds. cbv zeta.
  repeat first
    [ rewrite H0 | rewrite Hv
    | progress cbn [position velocity set_position set_velocity set_x set_y
                    x y zero]
    | case_if ];
    reflexivity.
Qed.

Lemma update_objects dt e :
  objects (update dt e)
  = (fun o => resolveBounds e (updatePhysics dt (friction e) o))
      <$> computeForces (objects e).
Proof. reflexivity. Qed.

Lemma update_bounds dt e : bounds (update dt e) = bounds e.
Proof. reflexivity. Qed.

Lemma update_radii dt e :
  radius <$> objects (update dt e) = radius <$> objects e.
Proof.
  rewrite update_objects, <- list_fmap_compose, <- computeForces_radii.
  apply list_fmap_ext. intros k o _. simpl.
  now rewrite resolveBounds_radius, updatePhysics_radius.
Qed.

Lemma steps_snoc dts dt e : steps (dts ++ [dt]) e = update dt (steps dts e).
Proof. unfold steps. now rewrite fold_left_app. Qed.

Lemma steps_bounds dts e : bounds (steps dts e) = bounds e.
Proof.
  induction dts as [|dt dts IH] using rev_ind; [reflexivity|].
  now rewrite steps_snoc, update_bounds.
Qed.

Lemma steps_radii dts e : radius <$> objects (steps dts e) = radius <$> objects e.
Proof.
  induction dts as [|dt dts IH] using rev_ind; [reflexivity|].
  now rewrite steps_snoc, update_radii.
Qed.

(** Every object of a non-empty run leaves [resolveBounds]. *)
Lemma steps_objects_resolved dts dt (e : PhysicsEngine) o :
  In o (objects (steps (dts ++ [dt]) e)) ->
  exists o1, o = resolveBounds (steps dts e) o1.
Proof.
  rewrite steps_snoc, update_objects. intros H.
  apply in_map_iff in H. destruct H as (o1 & <- & _). eauto.
Qed.

(** [setDistance] on an engine of at least two objects: both are moved to
    their targets, stopped, and passed through [resolveBounds]. *)
Lemma setDistance_objects dist e objA objB rest :
  objects e = objA :: objB :: rest ->
  objects (setDistance dist e)
  = resolveBounds e
      (set_acceleration zero
         (set_velocity zero
            (set_position (fst (separationTargets dist objA objB)) objA)))
    :: resolveBounds e
         (set_acceleration zero
            (set_velocity zero
               (set_position (snd (separationTargets dist objA objB)) objB)))
    :: rest.
Proof. intros H. unfold setDistance. rewrite H. reflexivity. Qed.

Lemma setDistance_few dist e :
  length (objects e) < 2 -> setDistance dist e = e.
Proof.
  intros H. unfold setDistance.
  destruct (objects e) as [|a [|b l]]; simpl in H; try reflexivity; lia.
Qed.

Lemma setDistance_stops dist (e : PhysicsEngine) A B rest :
  (ofZ 0 <? ofZ 0) = false ->
  objects e = A :: B :: rest ->
  exists A' B',
    objects (setDistance dist e) = A' :: B' :: rest
    /\ velocity A' = zero /\ velocity B' = zero
    /\ acceleration A' = zero /\ acceleration B' = zero.
Proof.
  intros H00 Hobjs.
  eexists _, _. split; [exact (setDistance_objects dist e A B rest Hobjs)|].
  repeat split;
    first [ apply resolveBounds_velocity_zero; [exact H00 | reflexivity]
          | rewrite resolveBounds_acceleration; reflexivity ].
Qed.

End EngineFacts.

(* ===================================================================== *)
(** ** Ideal arithmetic: vectors over the reals *)
(* ===================================================================== *)

Section IdealFacts.
Local Open Scope R_scope.
Implicit Types (v u : @Vector2 Ideal.number).

Lemma ideal_ltb_true a b : Ideal.ltb a b = true <-> a < b.
Proof. unfold Ideal.ltb. destruct (Rlt_dec a b); split; auto; discriminate. Qed.

Lemma ideal_ltb_false a b : Ideal.ltb a b = false <-> b <= a.
Proof.
  unfold Ideal.ltb. destruct (Rlt_dec a b); split; auto; try discriminate; lra.
Qed.

Lemma ideal_eqb_true a b : Ideal.eqb a b = true <-> a = b.
Proof. unfold Ideal.eqb. destruct (Req_dec_T a b); split; auto; discriminate. Qed.

Lemma ideal_eqb_false a b : Ideal.eqb a b = false <-> a <> b.
Proof.
  unfold Ideal.eqb. destruct (Req_dec_T a b); split; auto; try discriminate.
  intros H. now contradiction H.
Qed.

Lemma sumsq_nonneg (a b : R) : 0 <= a * a + b * b.
Proof. nra. Qed.

Lemma magnitude_nonneg v : 0 <= magnitude v.
Proof. unfold magnitude. ideal. apply sqrt_pos. Qed.

Lemma magnitude_sqr v : magnitude v * magnitude v = x v * x v + y v * y v.
Proof. unfold magnitude. ideal. apply sqrt_sqrt, sumsq_nonneg. Qed.

Lemma magnitude_zero_iff v : magnitude v = 0 <-> v = zero.
Proof.
  split.
  - intros H. pose proof (magnitude_sqr v) as Hs. rewrite H in Hs.
    destruct v as [a b]. simpl in Hs. unfold zero. ideal.
    assert (a = 0) by nra. assert (b = 0) by nra. now subst.
  - intros ->. unfold magnitude, zero. ideal. simpl.
    replace (0 * 0 + 0 * 0) with 0 by ring. apply sqrt_0.
Qed.

Lemma magnitude_pos v : v <> zero -> 0 < magnitude v.
Proof.
  intros Hv. destruct (magnitude_nonneg v) as [H|H]; [exact H|].
  symmetry in H. now apply magnitude_zero_iff in H.
Qed.

(** [normalize] of a non-zero vector is the unit vector of its direction. *)
Lemma normalize_nonzero v :
  v <> zero ->
  normalize v = mkVector2 (N := Ideal.number) (x v / magnitude v) (y v / magnitude v)
  /\ magnitude (normalize v) = 1
  /\ v = multiply (normalize v) (magnitude v).
Proof.
  intros Hv. pose proof (magnitude_pos v Hv) as Hm.
  assert (E : normalize v
              = mkVector2 (N := Ideal.number) (x v / magnitude v) (y v / magnitude v)).
  { unfold normalize. ideal.
    destruct (Ideal.eqb (magnitude v) 0) eqn:E; [|reflexivity].
    apply ideal_eqb_true in E. lra. }
  split; [exact E|]. rewrite E.
  pose proof (magnitude_sqr v) as Hsq.
  set (m := magnitude v) in *. clearbody m. split.
  - unfold magnitude. ideal. simpl.
    replace (x v / m * (x v / m) + y v / m * (y v / m))
      with ((x v * x v + y v * y v) / (m * m)) by (field; lra).
    rewrite <- Hsq.
    replace (m * m / (m * m)) with 1 by (field; lra).
    apply sqrt_1.
  - unfold multiply. ideal. simpl. destruct v as [a b]. simpl in *.
    f_equal; ideal; field; lra.
Qed.

Lemma normalize_zero : normalize (N := Ideal.number) zero = zero.
Proof.
  unfold normalize.
  replace (magnitude (N := Ideal.number) zero) with 0
    by (symmetry; now apply magnitude_zero_iff).
  ideal. now rewrite (proj2 (ideal_eqb_true 0 0) eq_refl).
Qed.

Lemma subtract_zero_iff u v : subtract u v = zero <-> u = v.
Proof.
  destruct u as [a b], v as [c d]. unfold subtract, zero. ideal. simpl.
  split; intros H; inversion H; f_equal; lra.
Qed.

End IdealFacts.

(* ===================================================================== *)
(** ** The pairwise force in ideal arithmetic *)
(* ===================================================================== *)

Section IdealForce.
Local Open Scope R_scope.
Implicit Types (a b u f : @Vector2 Ideal.number) (A B : @ChargedObject Ideal.number).

Lemma unitDirection_normalize a b :
  a <> b -> unitDirection a b (normalize (subtract b a)).
Proof.
  intros Hab.
  assert (Hr : subtract b a <> zero).
  { intros H. apply (proj1 (subtract_zero_iff _ _)) in H. congruence. }
  destruct (normalize_nonzero _ Hr) as (_ & Hu & Hmul). now split.
Qed.

Lemma magnitude_flip u : magnitude (multiply u (-1)) = magnitude u.
Proof.
  unfold magnitude, multiply. ideal. simpl. f_equal. ring.
Qed.

Lemma subtract_flip a b : subtract a b = multiply (subtract b a) (-1).
Proof.
  destruct a, b. unfold subtract, multiply. ideal. simpl.
  f_equal; ideal; ring.
Qed.

Lemma unitDirection_flip a b u :
  unitDirection a b u -> unitDirection b a (multiply u (-1)).
Proof.
  intros [Hu Hd]. split; [now rewrite magnitude_flip|].
  rewrite (subtract_flip a b), magnitude_flip.
  set (m := magnitude (subtract b a)) in *. rewrite Hd.
  destruct u. unfold multiply. ideal. simpl. f_equal; ideal; ring.
Qed.

Lemma pairDist_ge A B : 60 <= pairDist A B.
Proof. unfold pairDist, PHYSICS_CONSTANTS.MIN_DISTANCE. ideal. apply Rmax_r. Qed.

Lemma forceMag_nonneg A B : 0 <= forceMag A B.
Proof.
  unfold forceMag, PHYSICS_CONSTANTS.K_COULOMB. ideal.
  pose proof (pairDist_ge A B) as Hd. pose proof (Rabs_pos (charge A * charge B)) as Hq.
  apply Rmult_le_pos; [nra|]. apply Rlt_le, Rinv_0_lt_compat. nra.
Qed.

Lemma forceMag_pos A B : charge A * charge B <> 0 -> 0 < forceMag A B.
Proof.
  intros Hq0.
  unfold forceMag, PHYSICS_CONSTANTS.K_COULOMB. ideal.
  pose proof (pairDist_ge A B) as Hd. pose proof (Rabs_pos_lt _ Hq0) as Hq.
  apply Rmult_lt_0_compat; [nra|]. apply Rinv_0_lt_compat. nra.
Qed.

(** The magnitude is largest at the clamp distance. *)
Lemma forceMag_le_clamped A B :
  forceMag A B <= 20000 * Rabs (charge A * charge B) / (60 * 60).
Proof.
  unfold forceMag, PHYSICS_CONSTANTS.K_COULOMB. ideal.
  pose proof (pairDist_ge A B) as Hd. pose proof (Rabs_pos (charge A * charge B)) as Hq.
  unfold Rdiv. apply Rmult_le_compat_l; [nra|].
  apply Rinv_le_contravar; nra.
Qed.

(** The three branches of the force on [A]. *)
Lemma forceOnA_cases A B :
  let q := charge A * charge B in
  let dir := normalize (subtract (position B) (position A)) in
  (q < 0 -> forceOnA A B = multiply dir (forceMag A B))
  /\ (0 < q -> forceOnA A B = multiply dir (- forceMag A B))
  /\ (q = 0 -> forceOnA A B = zero).
Proof.
  intros q dir. unfold forceOnA. fold dir. ideal. fold q.
  destruct (Ideal.ltb q 0) eqn:E1; destruct (Ideal.ltb 0 q) eqn:E2;
    try apply ideal_ltb_true in E1; try apply ideal_ltb_true in E2;
    try apply ideal_ltb_false in E1; try apply ideal_ltb_false in E2;
    repeat split; intros; try lra; reflexivity.
Qed.

Lemma multiply_zero (c : R) : multiply (N := Ideal.number) zero c = zero.
Proof. unfold multiply, zero. ideal. simpl. f_equal; ideal; ring. Qed.

Lemma forceOnA_coincident A B : position A = position B -> forceOnA A B = zero.
Proof.
  intros Hp.
  destruct (forceOnA_cases A B) as (Hneg & Hpos & Hzero). cbv zeta in *.
  assert (Hd : normalize (subtract (position B) (position A)) = zero).
  { rewrite (proj2 (subtract_zero_iff _ _) (eq_sym Hp)). apply normalize_zero. }
  rewrite Hd in *.
  destruct (Rtotal_order (charge A * charge B) 0) as [H|[H|H]].
  - rewrite (Hneg H). apply multiply_zero.
  - exact (Hzero H).
  - rewrite (Hpos H). apply multiply_zero.
Qed.

(** No positive multiple of a unit vector is the zero vector. *)
Lemma pointsToward_nonzero f a b : pointsToward f a b -> f <> zero.
Proof.
  intros (c & u & Hc & [Hu _] & ->) H0.
  pose proof (magnitude_sqr u) as Hs. rewrite Hu in Hs.
  destruct u as [ux uy]. unfold multiply, zero in H0. ideal. simpl in *.
  inversion H0 as [[Hx Hy]].
  assert (ux = 0) by nra. assert (uy = 0) by nra. subst. lra.
Qed.

End IdealForce.

(* ===================================================================== *)
(** ** Boundary containment and [setDistance] in ideal arithmetic *)
(* ===================================================================== *)

Section IdealBounds.
Local Open Scope R_scope.
Implicit Types (o A B : @ChargedObject Ideal.number) (e : @PhysicsEngine Ideal.number).

Lemma ideal_clamp_range (lo hi a : R) :
  lo <= hi -> lo <= clamp (N := Ideal.number) lo hi a <= hi.
Proof.
  intros H. unfold clamp. ideal.
  destruct (Ideal.ltb a lo) eqn:E1; [lra|].
  destruct (Ideal.ltb hi a) eqn:E2; [lra|].
  apply ideal_ltb_false in E1, E2. lra.
Qed.

Lemma ideal_clamp_id (lo hi a : R) :
  lo <= a <= hi -> clamp (N := Ideal.number) lo hi a = a.
Proof.
  intros H. unfold clamp. ideal.
  destruct (Ideal.ltb a lo) eqn:E1; [apply ideal_ltb_true in E1; lra|].
  destruct (Ideal.ltb hi a) eqn:E2; [apply ideal_ltb_true in E2; lra|].
  reflexivity.
Qed.

Lemma resolveBounds_inBounds e o :
  radius o <= width (bounds e) - radius o ->
  radius o <= height (bounds e) - radius o ->
  inBounds e (resolveBounds e o).
Proof.
  intros Hw Hh. unfold inBounds.
  rewrite resolveBounds_position, resolveBounds_radius. simpl. ideal.
  split; now apply ideal_clamp_range.
Qed.

Lemma resolveBounds_inside e o :
  inBounds e o -> position (resolveBounds e o) = position o.
Proof.
  intros [Hx Hy]. rewrite resolveBounds_position. ideal.
  rewrite !ideal_clamp_id by assumption. apply vector_eta.
Qed.

Lemma fits_update dt e : fits e -> fits (update dt e).
Proof. unfold fits. now rewrite update_radii, update_bounds. Qed.

Lemma fits_steps dts e : fits e -> fits (steps dts e).
Proof. unfold fits. now rewrite steps_radii, steps_bounds. Qed.

Lemma update_inBounds dt e :
  fits e -> Forall (inBounds (update dt e)) (objects (update dt e)).
Proof.
  intros Hfit. apply fits_update with (dt := dt) in Hfit.
  unfold fits in Hfit. rewrite update_bounds in Hfit.
  rewrite update_objects in *.
  rewrite <- list_fmap_compose in Hfit.
  apply (proj1 (Forall_fmap _ _ _)) in Hfit. apply Forall_fmap.
  eapply Forall_impl; [exact Hfit|].
  intros o [Hw Hh]. simpl in *.
  rewrite resolveBounds_radius in Hw, Hh.
  set (o' := updatePhysics (N := Ideal.number) dt (friction e) o) in *.
  pose proof (resolveBounds_inBounds e o' Hw Hh) as [Hx Hy].
  split; simpl; assumption.
Qed.

(** The same for one particle whose diameter fits, whatever the others. *)
Lemma ideal_steps_inBounds e (dts : list (@num Ideal.number))
    (dt : @num Ideal.number) o :
  let e' := steps (dts ++ [dt]) e in
  In o (objects e') ->
  radius o <= width (bounds e') - radius o ->
  radius o <= height (bounds e') - radius o ->
  inBounds e' o.
Proof.
  intros e' Hin Hw Hh.
  destruct (steps_objects_resolved dts dt e o Hin) as [o1 ->].
  unfold e' in *. rewrite steps_snoc, update_bounds in Hw, Hh.
  rewrite resolveBounds_radius in Hw, Hh.
  pose proof (resolveBounds_inBounds (steps dts e) o1 Hw Hh) as [Hx Hy].
  split; rewrite steps_snoc, update_bounds; assumption.
Qed.

Lemma separationDir_unit A B : magnitude (separationDir A B) = 1.
Proof.
  unfold separationDir. cbv zeta. ideal.
  set (r := subtract (position B) (position A)).
  destruct (Ideal.eqb (magnitude (normalize r)) 0) eqn:E.
  - unfold magnitude. ideal. simpl.
    replace (1 * 1 + 0 * 0) with 1 by ring. apply sqrt_1.
  - apply ideal_eqb_false in E.
    destruct (Req_dec_T (magnitude r) 0) as [H0|H0].
    + apply magnitude_zero_iff in H0. rewrite H0, normalize_zero in E.
      contradiction E. now apply magnitude_zero_iff.
    + apply normalize_nonzero. intros Hr. apply H0.
      now apply magnitude_zero_iff.
Qed.

Lemma separationDir_coincident A B :
  position A = position B -> separationDir A B = rvec 1 0.
Proof.
  intros Hp. unfold separationDir. cbv zeta.
  rewrite (proj2 (subtract_zero_iff _ _) (eq_sym Hp)), normalize_zero.
  replace (magnitude (N := Ideal.number) zero) with 0
    by (symmetry; now apply magnitude_zero_iff).
  ideal. now rewrite (proj2 (ideal_eqb_true 0 0) eq_refl).
Qed.

Lemma separationDir_distinct A B :
  position A <> position B ->
  unitDirection (position A) (position B) (separationDir A B).
Proof.
  intros Hp. pose proof (unitDirection_normalize _ _ Hp) as Hu.
  unfold separationDir. cbv zeta. ideal.
  destruct (Ideal.eqb _ 0) eqn:E; [|exact Hu].
  apply ideal_eqb_true in E. destruct Hu as [Hu _]. rewrite Hu in E. lra.
Qed.

(** The targets are [|d|] apart. *)
Lemma separationTargets_distance (d : R) A B :
  magnitude (subtract (fst (separationTargets d A B))
                      (snd (separationTargets d A B)))
  = Rabs d.
Proof.
  pose proof (separationDir_unit A B) as Hu.
  pose proof (magnitude_sqr (separationDir A B)) as Hs. rewrite Hu in Hs.
  unfold separationTargets. cbv zeta. simpl fst. simpl snd.
  destruct (separationDir A B) as [ux uy].
  unfold magnitude, subtract, add, multiply, dec. ideal. simpl in *.
  match goal with |- sqrt ?t = _ =>
    replace t with ((d * d) * (ux * ux + uy * uy)) by field
  end.
  rewrite <- Hs, Rmult_1_r, Rmult_1_r.
  replace (d * d) with (d ^ 2) by ring. apply sqrt_pow2_abs || (rewrite <- Rsqr_pow2; apply sqrt_Rsqr_abs).
Qed.


End IdealBounds.

(* ===================================================================== *)
(** ** Binary64 facts

    Consequences of the specification of the primitive floats
    ([FloatAxioms] over [SpecFloat]) that the claims about NaN, about
    finiteness and about exact negation rest on. *)
(* ===================================================================== *)

Section FloatFacts.
Local Open Scope Z_scope.

Lemma SFcompare_refl s : s <> S754_nan -> SFcompare s s = Some Eq.
Proof.
  destruct s as [[]|[]| |[] m e]; simpl; try congruence; intros _;
    rewrite Z.compare_refl, Pos.compare_cont_refl; reflexivity.
Qed.

Lemma is_nan_false x : is_nan x = false <-> Prim2SF x <> S754_nan.
Proof.
  unfold is_nan. rewrite FloatAxioms.eqb_spec. unfold SFeqb. split.
  - intros H E. rewrite E in H. discriminate.
  - intros H. now rewrite SFcompare_refl.
Qed.

Lemma Prim2SF_infinity : Prim2SF infinity = S754_infinity false.
Proof. reflexivity. Qed.

Lemma is_finite_true x : is_finite x = true <-> SFfin (Prim2SF x) = true.
Proof.
  unfold is_finite, is_infinity, is_nan.
  rewrite !FloatAxioms.eqb_spec, FloatAxioms.abs_spec, Prim2SF_infinity. unfold SFeqb.
  destruct (Prim2SF x) as [[]|[]| |[] m e]; simpl;
    rewrite ?Z.compare_refl, ?Pos.compare_cont_refl; simpl; split; congruence.
Qed.

Lemma is_finite_not_nan x : is_finite x = true -> is_nan x = false.
Proof.
  intros H. apply is_finite_true in H. apply is_nan_false.
  intros E. rewrite E in H. discriminate.
Qed.

Lemma ltb_not_nan a b :
  (a <? b)%float = true -> is_nan a = false /\ is_nan b = false.
Proof.
  rewrite FloatAxioms.ltb_spec. unfold SFltb. intros H.
  split; apply is_nan_false; intros E; rewrite E in H;
    destruct (Prim2SF a), (Prim2SF b); discriminate.
Qed.

(** *** Rounding never produces NaN *)

Lemma iter_pos_invariant {A} (P : A -> Prop) (f : A -> A) :
  (forall a, P a -> P (f a)) -> forall n a, P a -> P (SpecFloat.iter_pos f n a).
Proof.
  intros Hf. induction n as [n IH|n IH|]; intros a Ha; simpl; auto.
Qed.

Lemma shr_1_nonneg r : 0 <= shr_m r -> 0 <= shr_m (shr_1 r).
Proof.
  destruct r as [m r s]. simpl.
  destruct m as [|[p|p|]|[p|p|]]; simpl; lia.
Qed.

Lemma shr_nonneg r e n : 0 <= shr_m r -> 0 <= shr_m (fst (shr r e n)).
Proof.
  intros H. unfold shr. destruct n; simpl; try exact H.
  now apply (iter_pos_invariant (fun r => 0 <= shr_m r) shr_1 shr_1_nonneg).
Qed.

Lemma shr_fexp_nonneg m e l :
  0 <= m -> 0 <= shr_m (fst (shr_fexp prec emax m e l)).
Proof.
  intros H. unfold shr_fexp. apply shr_nonneg.
  destruct l as [|[]]; exact H.
Qed.

Lemma round_nearest_even_nonneg m l : 0 <= m -> 0 <= round_nearest_even m l.
Proof.
  intros H. destruct l as [|[]]; simpl; try lia.
  destruct (Z.even m); lia.
Qed.

Lemma binary_round_aux_not_nan s m e l :
  0 <= m -> binary_round_aux prec emax s m e l <> S754_nan.
Proof.
  intros H. unfold binary_round_aux.
  pose proof (shr_fexp_nonneg m e l H) as H1.
  destruct (shr_fexp prec emax m e l) as [mrs' e'] eqn:E1. simpl in H1.
  pose proof (shr_fexp_nonneg
                (round_nearest_even (shr_m mrs') (loc_of_shr_record mrs')) e'
                loc_Exact (round_nearest_even_nonneg _ _ H1)) as H2.
  destruct (shr_fexp prec emax _ e' loc_Exact) as [mrs'' e''] eqn:E2.
  simpl in H2.
  destruct (shr_m mrs'') as [|p|p]; try discriminate; [|lia].
  destruct (e'' <=? emax - prec); discriminate.
Qed.





(** *** Multiplication by [1] and [-1] is exact *)


Lemma Prim2SF_neg_one : Prim2SF (-1) = S754_finite true 4503599627370496 (-52).
Proof. reflexivity. Qed.

(** Rounding [m * 2^52] at exponent [e - 52] gives back the canonical
    [(m, e)]. *)
Lemma binary_round_aux_one s m e :
  SpecFloat.bounded prec emax m e = true ->
  binary_round_aux prec emax s (Zpos (4503599627370496 * m)) (e + -52) loc_Exact
  = S754_finite s m e.
Proof.
  unfold SpecFloat.bounded, canonical_mantissa. intros H.
  apply andb_prop in H. destruct H as [Hc He].
  apply Z.eqb_eq in Hc.
  assert (Hd : Zdigits2 (Zpos (4503599627370496 * m)) + (e + -52)
               = Zpos (digits2_pos m) + e).
  { cbv [Pos.mul Zdigits2 digits2_pos]. lia. }
  unfold binary_round_aux, shr_fexp. rewrite Hd, Hc.
  replace (e - (e + -52)) with 52 by lia.
  cbv [Pos.mul shr shr_record_of_loc SpecFloat.iter_pos shr_1 orb].
  cbn [shr_m loc_of_shr_record round_nearest_even Zdigits2].
  replace (e + -52 + 52) with e by lia.
  rewrite Hc, Z.sub_diag. cbn [shr shr_record_of_loc shr_m].
  now rewrite He.
Qed.

Lemma SFmul_one_r s' x :
  valid_binary x = true ->
  SF64mul x (S754_finite s' 4503599627370496 (-52))
  = match x with
    | S754_nan => S754_nan
    | S754_zero s => S754_zero (xorb s s')
    | S754_infinity s => S754_infinity (xorb s s')
    | S754_finite s m e => S754_finite (xorb s s') m e
    end.
Proof.
  intros Hv. destruct x as [s|s| |s m e]; try reflexivity.
  unfold SF64mul, SFmul. rewrite Pos.mul_comm.
  now apply binary_round_aux_one.
Qed.


Theorem mul_neg_one x : (x * -1)%float = (- x)%float.
Proof.
  apply Prim2SF_inj.
  rewrite FloatAxioms.mul_spec, FloatAxioms.opp_spec, Prim2SF_neg_one, SFmul_one_r
    by apply Prim2SF_valid.
  destruct (Prim2SF x) as [[]|[]| |[] m e]; reflexivity.
Qed.


(** *** [x - x] is [+0] for a finite [x] *)


(** *** Sums, differences and products that are not NaN *)







(** *** Half of a finite double is finite *)















(** *** The order of binary64 *)

Lemma SFcompare_antisym a b :
  SFcompare b a = option_map CompOpp (SFcompare a b).
Proof.
  destruct a as [[]|[]| |[] ma ea], b as [[]|[]| |[] mb eb];
    try reflexivity; cbn [SFcompare option_map];
    rewrite (Z.compare_antisym ea eb);
    destruct (ea ?= eb); cbn [CompOpp]; try reflexivity;
    rewrite ?CompOpp_involutive, ?Pos.compare_cont_antisym; reflexivity.
Qed.

Lemma SFcompare_not_nan a b :
  a <> S754_nan -> b <> S754_nan -> exists c, SFcompare a b = Some c.
Proof.
  intros Ha Hb.
  destruct a as [[]|[]| |sa ma ea], b as [[]|[]| |sb mb eb];
    try congruence; cbn [SFcompare]; eauto.
Qed.

Lemma leb_not_nan a b :
  (a <=? b)%float = true -> is_nan a = false /\ is_nan b = false.
Proof.
  rewrite FloatAxioms.leb_spec. unfold SFleb. intros H.
  split; apply is_nan_false; intros E; rewrite E in H;
    destruct (Prim2SF a), (Prim2SF b); discriminate.
Qed.

Lemma leb_refl a : is_nan a = false -> (a <=? a)%float = true.
Proof.
  intros H. apply is_nan_false in H.
  rewrite FloatAxioms.leb_spec. unfold SFleb. now rewrite SFcompare_refl.
Qed.

Lemma leb_of_not_ltb a b :
  is_nan a = false -> is_nan b = false ->
  (a <? b)%float = false -> (b <=? a)%float = true.
Proof.
  intros Ha Hb. apply is_nan_false in Ha, Hb.
  rewrite FloatAxioms.ltb_spec, FloatAxioms.leb_spec. unfold SFltb, SFleb.
  rewrite (SFcompare_antisym (Prim2SF a) (Prim2SF b)).
  destruct (SFcompare_not_nan _ _ Ha Hb) as [c ->].
  destruct c; simpl; congruence.
Qed.


End FloatFacts.

(* ===================================================================== *)
(** ** The program on binary64 *)
(* ===================================================================== *)

Section JSFacts.
Implicit Types (a b lo hi : float) (e : @PhysicsEngine JS.number)
  (o A B : @ChargedObject JS.number).

Lemma js_neg_one : (- @ofZ JS.number 1)%num = (-1)%float.
Proof. reflexivity. Qed.

Lemma js_max_of_ltb a b : (a <? b)%float = true -> JS.max a b = b.
Proof.
  intros H. unfold JS.max.
  destruct (ltb_not_nan a b H) as [-> ->]. simpl. now rewrite H.
Qed.

Lemma js_eqb_zero_ltb (q : float) :
  (q =? 0)%float = true -> (q <? 0)%float = false /\ (0 <? q)%float = false.
Proof.
  rewrite FloatAxioms.eqb_spec, !FloatAxioms.ltb_spec.
  unfold SFeqb, SFltb. change (Prim2SF 0) with (S754_zero false).
  destruct (Prim2SF q) as [[]|[]| |[] m e]; simpl; try discriminate; auto.
Qed.

Lemma js_forceOnA_zero_charge (A B : @ChargedObject JS.number) :
  (charge A * charge B =? 0)%float = true -> forceOnA A B = fvec 0 0.
Proof.
  intros H. destruct (js_eqb_zero_ltb _ H) as [H1 H2].
  unfold forceOnA. js. change (JS.of_int 0) with 0%float.
  now rewrite H1, H2.
Qed.


Lemma js_clamp_range lo hi a :
  (lo <=? hi)%float = true -> is_nan a = false ->
  (lo <=? clamp (N := JS.number) lo hi a)%float = true
  /\ (clamp (N := JS.number) lo hi a <=? hi)%float = true.
Proof.
  intros Hle Ha. destruct (leb_not_nan _ _ Hle) as [Hlo Hhi].
  unfold clamp. js.
  destruct (a <? lo)%float eqn:E1; [split; [now apply leb_refl|exact Hle]|].
  destruct (hi <? a)%float eqn:E2; [split; [exact Hle|now apply leb_refl]|].
  split; now apply leb_of_not_ltb.
Qed.

Lemma js_clamp_nan_inv lo hi a :
  is_nan (clamp (N := JS.number) lo hi a) = false -> is_nan a = false.
Proof.
  unfold clamp. js.
  destruct (a <? lo)%float eqn:E1; [intros _; apply (ltb_not_nan _ _ E1)|].
  destruct (hi <? a)%float eqn:E2; [intros _; apply (ltb_not_nan _ _ E2)|].
  auto.
Qed.

Lemma js_resolveBounds_inBoundsF e o :
  fitsF e o = true ->
  is_nan (x (position (resolveBounds e o))) = false ->
  is_nan (y (position (resolveBounds e o))) = false ->
  inBoundsF e (resolveBounds e o) = true.
Proof.
  unfold fitsF, inBoundsF. intros Hfit.
  apply andb_prop in Hfit. destruct Hfit as [Hw Hh].
  rewrite resolveBounds_position, resolveBounds_radius. cbn [x y]. js.
  intros Hx Hy. apply js_clamp_nan_inv in Hx, Hy.
  destruct (js_clamp_range _ _ _ Hw Hx) as [-> ->].
  destruct (js_clamp_range _ _ _ Hh Hy) as [-> ->]. reflexivity.
Qed.


Lemma js_steps_inBoundsF (e : @PhysicsEngine JS.number)
    (dts : list float) (dt : float) (o : @ChargedObject JS.number) :
  let e' := steps (dts ++ [dt]) e in
  In o (objects e') ->
  fitsF e o = true ->
  is_nan (x (position o)) = false -> is_nan (y (position o)) = false ->
  inBoundsF e' o = true.
Proof.
  intros e' Hin Hfit Hx Hy.
  destruct (steps_objects_resolved dts dt e o Hin) as [o1 ->].
  assert (Hb : inBoundsF e' (resolveBounds (steps dts e) o1)
               = inBoundsF (steps dts e) (resolveBounds (steps dts e) o1)).
  { unfold inBoundsF, e'. now rewrite !steps_bounds. }
  rewrite Hb. apply js_resolveBounds_inBoundsF; try assumption.
  unfold fitsF in *. rewrite resolveBounds_radius in Hfit.
  now rewrite steps_bounds.
Qed.




End JSFacts.

(* ===================================================================== *)
(** ** The claims of the specification *)
(* ===================================================================== *)

(** C1 (as the code has it).  In ideal arithmetic, for two particles at
    different positions: when the product of the charges is negative the
    force on [A] is a positive multiple of the unit vector from [A] to [B]
    (and the force on [B] of the one from [B] to [A]); when it is positive,
    a negative multiple; and when it is zero the force is the zero vector,
    wherever the particles are.  In ideal arithmetic again, for two
    particles at the same position both forces are the zero vector,
    whatever the charges.  The zero-charge part holds on binary64 as it
    stands: a product that [== 0] gives the vector [(0, 0)]. *)
Theorem C1_force_direction :
  (forall A B : @ChargedObject Ideal.number,
      let q := (charge A * charge B)%R in
      (q = 0%R -> forceOnA A B = zero)
      /\ (position A <> position B ->
          ((q < 0)%R ->
             pointsToward (forceOnA A B) (position A) (position B)
             /\ pointsToward (forceOnB A B) (position B) (position A))
          /\ ((q > 0)%R ->
             pointsAway (forceOnA A B) (position A) (position B)
             /\ pointsAway (forceOnB A B) (position B) (position A)))
      /\ (position A = position B ->
          forceOnA A B = zero /\ forceOnB A B = zero))
  /\ (forall A B : @ChargedObject JS.number,
        (charge A * charge B =? 0)%float = true -> forceOnA A B = fvec 0 0).
Proof.
  split; [|exact js_forceOnA_zero_charge].
  intros A B q.
  destruct (forceOnA_cases A B) as (Hneg & Hpos & Hzero). cbv zeta in *.
  split; [exact Hzero|]. split.
  2:{ intros Hp. pose proof (forceOnA_coincident A B Hp) as H0.
      split; [exact H0|]. unfold forceOnB. rewrite H0. apply multiply_zero. }
  intros Hp.
  pose proof (unitDirection_normalize _ _ Hp) as Hu.
  pose proof (unitDirection_flip _ _ _ Hu) as Hu'.
  set (u := normalize (subtract (position B) (position A))) in *.
  assert (Hflip : forall c : R,
             multiply (multiply u c) (-1)%R = multiply (multiply u (-1)%R) c).
  { intros c. destruct u. unfold multiply. ideal. simpl. f_equal; ideal; ring. }
  split; intros Hq.
  - assert (Hm : (0 < forceMag A B)%R) by (apply forceMag_pos; fold q; lra).
    unfold forceOnB. rewrite (Hneg Hq). split.
    + exists (forceMag A B), u. auto.
    + exists (forceMag A B), (multiply u (-1)%R). split; [exact Hm|].
      split; [exact Hu'|]. apply Hflip.
  - assert (Hm : (0 < forceMag A B)%R) by (apply forceMag_pos; fold q; lra).
    unfold forceOnB. rewrite (Hpos Hq). ideal. split.
    + exists (- forceMag A B)%R, u. repeat split; try apply Hu. lra.
    + exists (- forceMag A B)%R, (multiply u (-1)%R). split; [lra|].
      split; [exact Hu'|]. apply Hflip.
Qed.

(** The theorem at the default pair, charges [+5] and [-5], 300 apart, at
    the same pair put on one point, and at a neutral second particle. *)
Lemma C1_witness :
  (let A := robject "obj1" 250 300 1 5 in
   let B := robject "obj2" 550 300 1 (-5) in
   position A <> position B
   /\ (charge A * charge B < 0)%R
   /\ pointsToward (forceOnA A B) (position A) (position B))
  /\ (let A := robject "obj1" 250 300 1 5 in
      let B := robject "obj2" 250 300 1 (-5) in
      position A = position B
      /\ forceOnA A B = zero /\ forceOnB A B = zero)
  /\ (let A := fobject "obj1" 250 300 1 5 in
      let B := fobject "obj2" 550 300 1 0 in
      (charge A * charge B =? 0)%float = true
      /\ forceOnA A B = fvec 0 0).
Proof.
  split; [|split].
  - intros A B.
    assert (Hp : position A <> position B).
    { simpl. intros H. inversion H. lra. }
    assert (Hq : (charge A * charge B < 0)%R) by (simpl; lra).
    split; [exact Hp|]. split; [exact Hq|].
    exact (proj1 (proj1 (proj1 (proj2 (proj1 C1_force_direction A B)) Hp) Hq)).
  - intros A B. split; [reflexivity|].
    exact (proj2 (proj2 (proj1 C1_force_direction A B)) eq_refl).
  - intros A B. split; [reflexivity|].
    apply (proj2 C1_force_direction A B). reflexivity.
Defined.

(** C1 as stated fails for two particles at the same position: the
    direction is the zero vector ([normalize] of a zero difference), the
    force on [A] is the zero vector although the charges are opposite, and
    the zero vector is no positive multiple of a unit vector.  The binary64
    evaluation agrees; and on binary64 the force is also the zero vector
    for two positions so close that the squared distance underflows
    ([2^-600] apart). *)
Lemma C1_counterexample :
  let A := robject "obj1" 100 100 1 5 in
  let B := robject "obj2" 100 100 1 (-5) in
  (charge A * charge B < 0)%R
  /\ forceOnA A B = zero
  /\ ~ pointsToward (forceOnA A B) (position A) (position B)
  /\ forceOnA (fobject "obj1" 100 100 1 5) (fobject "obj2" 100 100 1 (-5))
     = fvec 0 0
  /\ forceOnA (fobject "obj1" 0 0 1 5) (fobject "obj2" 0x1p-600 0 1 (-5))
     = fvec 0 0.
Proof.
  intros A B.
  assert (H0 : forceOnA A B = zero) by (apply forceOnA_coincident; reflexivity).
  split; [simpl; lra|]. split; [exact H0|]. split; [|split].
  - intros H. exact (pointsToward_nonzero _ _ _ H H0).
  - vm_compute. reflexivity.
  - vm_compute. reflexivity.
Qed.

(** C2. The force on [B] is the exact negation of the force on [A],
    component by component: on binary64, where [f * -1] and [-f] are the
    same double for every [f] (infinities and NaN included), and in ideal
    arithmetic. *)
Theorem C2_newton_third_law :
  (forall A B : @ChargedObject JS.number,
      forceOnB A B = negate (forceOnA A B))
  /\ (forall A B : @ChargedObject Ideal.number,
      forceOnB A B = negate (forceOnA A B)).
Proof.
  split; intros A B; unfold forceOnB, multiply, negate.
  - rewrite js_neg_one. js. now rewrite !mul_neg_one.
  - ideal. f_equal; ideal; ring.
Qed.

(** C3 (as the code has it).  In ideal arithmetic, when every particle's
    diameter fits the canvas ([radius <= width - radius] and
    [radius <= height - radius]), after each [update] of any run every
    particle's position lies within [[radius, width - radius]] on the x
    axis and [[radius, height - radius]] on the y axis, whatever the state
    the run started from; and so does the position of any one particle
    whose diameter fits.  On binary64 the same holds of every particle whose
    diameter fits and whose coordinates are numbers (not NaN). *)
Theorem C3_positions_stay_in_bounds :
  (forall (e : @PhysicsEngine Ideal.number)
          (dts : list (@num Ideal.number)) (dt : @num Ideal.number),
      fits e ->
      let e' := steps (dts ++ [dt]) e in
      bounds e' = bounds e /\ Forall (inBounds e') (objects e'))
  /\ (forall (e : @PhysicsEngine Ideal.number)
             (dts : list (@num Ideal.number)) (dt : @num Ideal.number)
             (o : @ChargedObject Ideal.number),
        let e' := steps (dts ++ [dt]) e in
        In o (objects e') ->
        (radius o <= width (bounds e') - radius o)%R ->
        (radius o <= height (bounds e') - radius o)%R ->
        inBounds e' o)
  /\ (forall (e : @PhysicsEngine JS.number)
             (dts : list (@num JS.number)) (dt : @num JS.number)
             (o : @ChargedObject JS.number),
        let e' := steps (dts ++ [dt]) e in
        In o (objects e') ->
        fitsF e' o = true ->
        is_nan (x (position o)) = false ->
        is_nan (y (position o)) = false ->
        inBoundsF e' o = true).
Proof.
  split; [|split].
  - intros e dts dt Hfit e'. unfold e'. split; [apply steps_bounds|].
    rewrite steps_snoc. apply update_inBounds. now apply fits_steps.
  - exact ideal_steps_inBounds.
  - intros e dts dt o e' Hin Hfit Hx Hy.
    apply (js_steps_inBoundsF e dts dt o); try assumption.
    unfold fitsF, e' in *. now rewrite steps_bounds in Hfit.
Qed.

(** The theorem at the default engine (800 x 600, two particles of radius
    22) and one frame of 1/64 s. *)
Lemma C3_witness :
  (let e := @newPhysicsEngine Ideal.number in
   let e' := steps (N := Ideal.number) [(1 / 64)%R] e in
   fits e /\ Forall (inBounds e') (objects e'))
  /\ (let e := @newPhysicsEngine JS.number in
      let e' := steps (N := JS.number) [0.015625%float] e in
      let o := hd (fobject "" 0 0 1 0) (objects e') in
      In o (objects e') /\ fitsF e' o = true /\ inBoundsF e' o = true)
  /\ (let e := @newPhysicsEngine Ideal.number in
      let e' := steps (N := Ideal.number) [(1 / 64)%R] e in
      forall o, In o (objects e') -> inBounds e' o).
Proof.
  split; [|split].
  - intros e e'.
    assert (Hfit : fits e).
    { unfold fits. simpl. ideal. rewrite sqrt_1.
      repeat constructor; lra. }
    split; [exact Hfit|].
    exact (proj2 (proj1 C3_positions_stay_in_bounds e [] (1 / 64)%R Hfit)).
  - intros e e' o.
    assert (Hin : In o (objects e')) by (left; reflexivity).
    assert (Hfit : fitsF e' o = true) by reflexivity.
    split; [exact Hin|]. split; [exact Hfit|].
    apply (proj2 (proj2 C3_positions_stay_in_bounds)
             e [] 0.015625%float o Hin Hfit);
      reflexivity.
  - intros e e' o Hin.
    assert (Hr : radius o = 22%R).
    { pose proof (steps_radii (N := Ideal.number) [(1 / 64)%R] e) as Hrad.
      fold e' in Hrad.
      assert (Ho : radius o ∈ radius <$> objects e').
      { apply list_elem_of_fmap_2, list_elem_of_In, Hin. }
      rewrite Hrad in Ho. simpl in Ho. ideal. rewrite sqrt_1 in Ho.
      apply list_elem_of_In in Ho. simpl in Ho.
      destruct Ho as [<-|[<-|[]]]; lra. }
    apply (proj1 (proj2 C3_positions_stay_in_bounds) e [] (1 / 64)%R o Hin);
      rewrite Hr.
    + change (22 <= 800 - 22)%R. lra.
    + change (22 <= 600 - 22)%R. lra.
Defined.

(** C3 as stated fails on a canvas narrower than a particle's diameter
    (the bounds come unchecked from the window size).  After a resize of the
    default engine to 40 x 600, one [update] puts the first particle at
    [x = radius = 22] and the second at [x = width - radius = 18]: neither
    lies within [[22, 18]].  In ideal arithmetic no position can. *)
Lemma C3_counterexample :
  (let e := resize (N := JS.number) 40%float 600%float newPhysicsEngine in
   let e' := update (N := JS.number) 0.015625%float e in
   map (fun o : @ChargedObject JS.number => (x (position o), radius o))
       (objects e')
   = [(22, 22); (18, 22)]%float
   /\ width (bounds e') = 40%float
   /\ map (inBoundsF e') (objects e') = [false; false])
  /\ (let e := resize (N := Ideal.number) 40%R 600%R newPhysicsEngine in
      let e' := update (N := Ideal.number) (1 / 64)%R e in
      ~ Forall (inBounds e') (objects e')).
Proof.
  split.
  - cbv zeta. repeat split; vm_compute; reflexivity.
  - intros e e' Hall.
    pose proof (update_radii (N := Ideal.number) (1 / 64)%R e) as Hr.
    fold e' in Hr.
    destruct (objects e') as [|o os]; [discriminate|].
    inversion Hall as [|? ? [[H1 H2] _] _]; subst.
    simpl in Hr. injection Hr as Hrad _.
    rewrite Hrad in H1, H2. ideal. rewrite sqrt_1 in *.
    change (width (bounds e')) with 40%R in H2. lra.
Qed.

(** C4. A locked particle is pinned: [applyForce] changes nothing, and after
    [updatePhysics], whatever forces were applied before it, velocity and
    acceleration are the zero vector and the position is the one before the
    call.  The particle stays locked, so this holds call after call. *)
Theorem C4_locked_particle_pinned {N : Number} (o : ChargedObject) :
  isLocked o = true ->
  (forall force, applyForce force o = o
                 /\ acceleration (applyForce force o) = acceleration o)
  /\ (forall forces dt fr,
        let o' := updatePhysics dt fr (applyForces forces o) in
        velocity o' = zero /\ acceleration o' = zero
        /\ position o' = position o /\ isLocked o' = true).
Proof.
  intros L. split.
  - intros force. now rewrite applyForce_locked.
  - intros forces dt fr. rewrite applyForces_locked by exact L.
    rewrite updatePhysics_locked by exact L. simpl. auto.
Qed.

(** The theorem at a locked particle carrying velocity and acceleration. *)
Lemma C4_witness :
  let o := set_isLocked true
             (set_acceleration (fvec 1 1)
                (set_velocity (fvec 3 4) (fobject "p" 100 100 1 5))) in
  let o' := updatePhysics (N := JS.number) 0.015625%float 0.0078125%float (applyForces [fvec 7 0] o) in
  velocity o' = fvec 0 0 /\ acceleration o' = fvec 0 0
  /\ position o' = fvec 100 100 /\ isLocked o' = true.
Proof.
  intros o. apply (C4_locked_particle_pinned o). reflexivity.
Defined.

(** C5 (as the code has it).  On an engine of at least two particles,
    [setDistance(d)] leaves both of the first two with zero velocity and
    zero acceleration, on binary64 and in ideal arithmetic.  In ideal
    arithmetic, when [d >= 0] and the two targets (the midpoint of the two
    positions, plus and minus [d / 2] along the separation direction) lie
    within the bounds, so that [resolveBounds] moves neither, the two
    positions are the targets and they are exactly [d] apart. *)
Theorem C5_setDistance_separation :
  (forall (e : @PhysicsEngine JS.number) (A B : @ChargedObject JS.number)
          (rest : list (@ChargedObject JS.number)) (d : float),
      objects e = A :: B :: rest ->
      exists A' B',
        objects (setDistance d e) = A' :: B' :: rest
        /\ velocity A' = zero /\ velocity B' = zero
        /\ acceleration A' = zero /\ acceleration B' = zero)
  /\ (forall (e : @PhysicsEngine Ideal.number) (A B : @ChargedObject Ideal.number)
             (rest : list (@ChargedObject Ideal.number)) (d : R),
        objects e = A :: B :: rest ->
        let tA := fst (separationTargets d A B) in
        let tB := snd (separationTargets d A B) in
        exists A' B',
          objects (setDistance d e) = A' :: B' :: rest
          /\ velocity A' = zero /\ velocity B' = zero
          /\ acceleration A' = zero /\ acceleration B' = zero
          /\ ((0 <= d)%R ->
              inBounds e (set_position tA A) ->
              inBounds e (set_position tB B) ->
              position A' = tA /\ position B' = tB
              /\ magnitude (subtract (position A') (position B')) = d)).
Proof.
  split.
  - intros e A B rest d Hobjs.
    apply (setDistance_stops d e A B rest); [reflexivity | exact Hobjs].
  - intros e A B rest d Hobjs tA tB.
    assert (H00 : @nltb Ideal.number (ofZ 0) (ofZ 0) = false).
    { ideal. apply ideal_ltb_false. lra. }
    eexists _, _. split; [exact (setDistance_objects d e A B rest Hobjs)|].
    fold tA tB.
    do 4 (split;
          [first [ apply resolveBounds_velocity_zero; [exact H00 | reflexivity]
                 | rewrite resolveBounds_acceleration; reflexivity ]|]).
    intros Hd HA HB.
    rewrite (resolveBounds_inside e
               (set_acceleration zero (set_velocity zero (set_position tA A))))
      by exact HA.
    rewrite (resolveBounds_inside e
               (set_acceleration zero (set_velocity zero (set_position tB B))))
      by exact HB.
    split; [reflexivity|]. split; [reflexivity|].
    simpl position. unfold tA, tB.
    rewrite separationTargets_distance. now apply Rabs_pos_eq.
Qed.

(** The theorem at the default engine and a separation of 200. *)
Lemma C5_witness :
  (let e := @newPhysicsEngine JS.number in
   exists A' B',
     objects (setDistance 200%float e) = [A'; B']
     /\ velocity A' = zero /\ velocity B' = zero
     /\ acceleration A' = zero /\ acceleration B' = zero)
  /\ (let e := @newPhysicsEngine Ideal.number in
      exists A' B',
        map position (objects (setDistance 200%R e)) = [position A'; position B']
        /\ magnitude (subtract (position A') (position B')) = 200%R).
Proof.
  split.
  { intros e.
    exact (proj1 C5_setDistance_separation e
             (fobject "obj1" 250 300 1 5) (fobject "obj2" 550 300 1 (-5))
             [] 200%float eq_refl). }
  intros e.
  destruct (proj2 C5_setDistance_separation e
              (robject "obj1" (800 / 2 - Rmax 150 (Rmin 300 (Rmin 800 600 * (6 / 10))) / 2)
                       (600 / 2) 1 5)
              (robject "obj2" (800 / 2 + Rmax 150 (Rmin 300 (Rmin 800 600 * (6 / 10))) / 2)
                       (600 / 2) 1 (-5))
              [] 200%R eq_refl)
    as (A' & B' & Hobjs & _ & _ & _ & _ & Hdist).
  exists A', B'. split; [now rewrite Hobjs|].
  assert (Hsep : Rmax 150 (Rmin 300 (Rmin 800 600 * (6 / 10))) = 300%R).
  { rewrite (Rmin_right 800 600) by lra.
    rewrite (Rmin_left 300) by lra. apply Rmax_right. lra. }
  assert (Hdir : separationDir
                   (robject "obj1" (800 / 2 - 300 / 2) (600 / 2) 1 5)
                   (robject "obj2" (800 / 2 + 300 / 2) (600 / 2) 1 (-5))
                 = rvec 1 0).
  { unfold separationDir, normalize, magnitude, subtract. simpl. ideal.
    replace ((800 / 2 + 300 / 2 - (800 / 2 - 300 / 2)) *
             (800 / 2 + 300 / 2 - (800 / 2 - 300 / 2)) +
             (600 / 2 - 600 / 2) * (600 / 2 - 600 / 2))%R
      with (300 * 300)%R by field.
    rewrite sqrt_square by lra.
    rewrite (proj2 (ideal_eqb_false 300 0)) by lra. simpl.
    replace ((800 / 2 + 300 / 2 - (800 / 2 - 300 / 2)) / 300)%R with 1%R by field.
    replace ((600 / 2 - 600 / 2) / 300)%R with 0%R by field.
    replace (1 * 1 + 0 * 0)%R with 1%R by ring. rewrite sqrt_1.
    rewrite (proj2 (ideal_eqb_false 1 0)) by lra. reflexivity. }
  rewrite Hsep in *.
  apply Hdist; [lra| |];
    unfold inBounds, separationTargets; rewrite Hdir;
    simpl; ideal; unfold dec; ideal; rewrite sqrt_1; lra.
Defined.

(** C5 as stated fails when the requested distance does not fit the canvas:
    on the default 800 x 600 engine, [setDistance(1000)] leaves the two
    particles clamped at [x = 22] and [x = 778], 756 apart.  It also fails
    for a negative argument: [setDistance(-100)] swaps the particles'
    sides and leaves them 100 apart. *)
Lemma C5_counterexample :
  let e := @newPhysicsEngine JS.number in
  (map position (objects (setDistance 1000%float e))
   = [fvec 22 300; fvec 778 300]
   /\ distanceTo (fvec 22 300) (fvec 778 300) = 756%float)
  /\ (map position (objects (setDistance (-100)%float e))
      = [fvec 450 300; fvec 350 300]
      /\ distanceTo (fvec 450 300) (fvec 350 300) = 100%float).
Proof.
  intros e. repeat split; vm_compute; reflexivity.
Qed.

(** C6.  Starting from a trail of at most 50 entries and a frame counter
    below 5 (the constructor leaves an empty trail and the counter at 0, and
    [updatePhysics] keeps both bounds), after any sequence of
    [updatePhysics] calls the trail has at most 50 entries, and the next
    call changes the trail exactly when the particle is unlocked and the
    counter reaches 5 on it, that is on every 5th call: with the counter at
    0 at the start, on the calls whose number is a multiple of 5.  The call
    then appends the new position, after dropping the oldest entry of a
    full trail. *)
Theorem C6_trail_bounded_and_sampled_every_5th {N : Number}
    (o : ChargedObject) (inputs : list (num * num)) :
  length (trail o) <= 50 ->
  trailTimer o < 5 ->
  let o' := integrates inputs o in
  length (trail o') <= 50
  /\ trailTimer o' < 5
  /\ forall dt fr,
       trail (updatePhysics dt fr o') =
       if negb (isLocked o)
          && ((trailTimer o + S (length inputs)) mod 5 =? 0)%nat
       then (if (length (trail o') <? 50)%nat then trail o' else tail (trail o'))
            ++ [position (updatePhysics dt fr o')]
       else trail o'.
Proof.
  intros Hlen Ht o'.
  assert (Hlen' : length (trail o') <= 50) by now apply integrates_trail_length.
  split; [exact Hlen'|].
  destruct (isLocked o) eqn:L; simpl negb; cbn [andb].
  - split.
    + unfold o'. clear Hlen'.
      induction inputs as [|i inputs IH] using rev_ind; [exact Ht|].
      rewrite integrates_snoc, updatePhysics_locked; [exact IH|].
      now rewrite integrates_isLocked.
    + intros dt fr. rewrite updatePhysics_locked; [reflexivity|].
      unfold o'. now rewrite integrates_isLocked.
  - assert (Ht' : trailTimer o' = (trailTimer o + length inputs) mod 5).
    { apply integrates_trailTimer; assumption. }
    pose proof (Nat.mod_upper_bound (trailTimer o + length inputs) 5) as Hb.
    split; [lia|]. intros dt fr.
    pose proof (updatePhysics_sample dt fr o') as Hs.
    unfold o' in Hs at 1. rewrite integrates_isLocked in Hs.
    specialize (Hs L). cbv zeta in Hs.
    unfold PHYSICS_CONSTANTS.TRAIL_UPDATE_FREQ in Hs. rewrite Ht' in Hs.
    replace (trailTimer o + S (length inputs))
      with (S (trailTimer o + length inputs)) by lia.
    pose proof (Nat.div_mod_eq (trailTimer o + length inputs) 5) as E1.
    pose proof (Nat.div_mod_eq (S (trailTimer o + length inputs)) 5) as E2.
    pose proof (Nat.mod_upper_bound (S (trailTimer o + length inputs)) 5) as Hb2.
    destruct (Nat.leb_spec 5 (S ((trailTimer o + length inputs) mod 5))),
             (Nat.eqb_spec (S (trailTimer o + length inputs) mod 5) 0);
      try lia.
    + destruct Hs as [_ ->]. now apply pushTrail_fifo.
    + now destruct Hs as [_ ->].
Qed.

(** The theorem at a fresh particle and four calls: the fifth appends. *)
Lemma C6_witness :
  let o := fobject "p" 0 0 1 5 in
  let inputs : list (@num JS.number * @num JS.number) :=
    repeat (0.015625, 0.0078125)%float 4 in
  length (trail (integrates inputs o)) <= 50
  /\ trail (updatePhysics (N := JS.number) 0.015625%float 0.0078125%float (integrates inputs o))
     = [position (updatePhysics (N := JS.number) 0.015625%float 0.0078125%float (integrates inputs o))].
Proof.
  intros o inputs.
  destruct (C6_trail_bounded_and_sampled_every_5th o inputs) as (H1 & _ & H2).
  - simpl. lia.
  - simpl. lia.
  - split; [exact H1|]. rewrite H2. reflexivity.
Defined.

(** C7: what the code does.  [reset(x, y)] sets the position to [(x, y)],
    zeroes velocity and acceleration and empties the trail, and there it
    stops: of the state the constructor initialises it leaves the frame
    counter [trailTimer] as it is, where the constructor starts it at 0.
    So the next trail point of an unlocked particle is appended by the
    [(5 - trailTimer)]-th [updatePhysics] call after the reset, and by none
    before. *)
Theorem C7_reset_keeps_frame_counter {N : Number}
    (o : ChargedObject) (x0 y0 : num) :
  let o' := reset x0 y0 o in
  position o' = mkVector2 x0 y0
  /\ velocity o' = zero /\ acceleration o' = zero /\ trail o' = []
  /\ trailTimer o' = trailTimer o
  /\ (isLocked o = false -> trailTimer o < 5 ->
      forall inputs,
        (length inputs < 5 - trailTimer o -> trail (integrates inputs o') = [])
        /\ (length inputs = 5 - trailTimer o ->
            trail (integrates inputs o') = [position (integrates inputs o')])).
Proof.
  intros o'. repeat (split; [reflexivity|]).
  intros L Ht inputs. split; intros Hlen.
  - rewrite integrates_trail_unsampled; [reflexivity|exact L|].
    unfold PHYSICS_CONSTANTS.TRAIL_UPDATE_FREQ. simpl. lia.
  - destruct inputs as [|i inputs _] using rev_ind; [simpl in Hlen; lia|].
    rewrite length_app in Hlen. simpl in Hlen.
    rewrite integrates_trail_sampled; [reflexivity|exact L|simpl; lia].
Qed.

(** The theorem at a particle that was integrated three times before the
    reset: two more calls append the first point. *)
Lemma C7_witness :
  let o := integrates (N := JS.number) (repeat (0.015625, 0)%float 3)
             (fobject "p" 0 0 1 5) in
  let o' := reset (N := JS.number) 10%float 20%float o in
  let two : list (@num JS.number * @num JS.number) := repeat (0.015625, 0)%float 2 in
  (isLocked o = false /\ trailTimer o < 5)
  /\ position o' = fvec 10 20 /\ trailTimer o' = 3
  /\ trail (integrates two o') = [position (integrates two o')].
Proof.
  intros o o' two.
  destruct (C7_reset_keeps_frame_counter o 10%float 20%float)
    as (Hp & _ & _ & _ & Ht & Hnext).
  split; [split; [reflexivity | vm_compute; lia]|].
  split; [exact Hp|]. split; [exact Ht|].
  apply Hnext; [reflexivity | vm_compute; lia | reflexivity].
Defined.

(** The claim fails on the code: a particle integrated four times has its
    counter at 4; [reset] leaves it there, and the very next
    [updatePhysics] call appends a trail point, not the fifth. *)
Lemma C7_counterexample :
  let o := integrates (N := JS.number) (repeat (0.015625, 0)%float 4)
             (fobject "p" 0 0 1 5) in
  let o' := reset (N := JS.number) 10%float 20%float o in
  trailTimer o' <> 0
  /\ trail (updatePhysics (N := JS.number) 0.015625%float 0%float o')
     = [fvec 10 20].
Proof.
  intros o o'. split.
  - vm_compute. discriminate.
  - vm_compute. reflexivity.
Qed.

(** C8. For two particles closer than [MIN_DISTANCE = 60], the magnitude
    used is the one at distance 60, [K * |q1 * q2| / 60^2]: on binary64 and
    in ideal arithmetic.  In ideal arithmetic the magnitude never exceeds
    that value, wherever the particles are. *)
Theorem C8_distance_clamp :
  (forall A B : @ChargedObject JS.number,
      (magnitude (subtract (position B) (position A)) <? 60)%float = true ->
      forceMag A B = (20000 * abs (charge A * charge B) / (60 * 60))%float)
  /\ (forall A B : @ChargedObject Ideal.number,
        ((magnitude (subtract (position B) (position A)) < 60)%R ->
         forceMag A B = (20000 * Rabs (charge A * charge B) / (60 * 60))%R)
        /\ (forceMag A B <= 20000 * Rabs (charge A * charge B) / (60 * 60))%R).
Proof.
  split; intros A B.
  - intros H. unfold forceMag, pairDist.
    unfold PHYSICS_CONSTANTS.MIN_DISTANCE, PHYSICS_CONSTANTS.K_COULOMB. js.
    change (JS.of_int 60) with 60%float. change (JS.of_int 20000) with 20000%float.
    now rewrite (js_max_of_ltb _ _ H).
  - split; [|apply forceMag_le_clamped].
    intros H. unfold forceMag, pairDist.
    unfold PHYSICS_CONSTANTS.MIN_DISTANCE, PHYSICS_CONSTANTS.K_COULOMB. ideal.
    rewrite Rmax_right by lra. reflexivity.
Qed.

(** The theorem at two particles 50 apart, charges [+5] and [-5]. *)
Lemma C8_witness :
  (let A := fobject "obj1" 0 0 1 5 in
   let B := fobject "obj2" 30 40 1 (-5) in
   magnitude (subtract (position B) (position A)) = 50%float
   /\ forceMag A B = (500000 / 3600)%float)
  /\ (let A := robject "obj1" 0 0 1 5 in
      let B := robject "obj2" 0 0 1 (-5) in
      forceMag A B = (20000 * Rabs (5 * -5) / (60 * 60))%R).
Proof.
  split.
  - intros A B. split; [reflexivity|].
    rewrite (proj1 C8_distance_clamp A B); reflexivity.
  - intros A B. apply (proj1 (proj2 C8_distance_clamp A B)).
    unfold magnitude, subtract. simpl. ideal.
    replace ((0 - 0) * (0 - 0) + (0 - 0) * (0 - 0))%R with 0%R by ring.
    rewrite sqrt_0. lra.
Defined.




(** C10. A locked particle still exerts force.  The force on [A] computed
    from the pair does not read [B]'s lock flag, whichever of the two comes
    first in the loop; and over the whole force pass, the state of every
    object other than the one at index [j] is the same whether the object at
    [j] is locked or not.  (That the locked object itself receives nothing
    is [applyForce]'s early return, claim C4.) *)
Theorem C10_locked_particle_still_exerts_force {N : Number}
    (objs : list ChargedObject) (i j : nat) :
  i <> j ->
  (forall (A B : ChargedObject) b,
      forceOnA A (set_isLocked b B) = forceOnA A B
      /\ forceOnB (set_isLocked b B) A = forceOnB B A)
  /\ computeForces (lockAt j true objs) !! i
     = computeForces (lockAt j false objs) !! i.
Proof.
  intros Hij. split; [intros A B b; split; reflexivity|].
  destruct (computeForces_agreeBut j _ _ (lockAt_agreeBut j true false objs))
    as [Hlen Hag].
  destruct (computeForces (lockAt j true objs) !! i) as [o1|] eqn:H1;
    destruct (computeForces (lockAt j false objs) !! i) as [o2|] eqn:H2.
  - destruct (Hag i o1 o2 H1 H2) as (_ & _ & He). now rewrite (He Hij).
  - apply lookup_lt_Some in H1. apply lookup_ge_None in H2. lia.
  - apply lookup_lt_Some in H2. apply lookup_ge_None in H1. lia.
  - reflexivity.
Qed.

(** The theorem at the default pair: the first particle's acceleration after
    the force pass is the same, and not zero, whether the second is locked
    or not. *)
Lemma C10_witness :
  let objs := objects (@newPhysicsEngine JS.number) in
  0 <> 1
  /\ computeForces (lockAt 1 true objs) !! 0
     = computeForces (lockAt 1 false objs) !! 0
  /\ (acceleration <$> computeForces (lockAt 1 true objs) !! 0)
     = Some (fvec (100000 / 18000) 0).
Proof.
  intros objs. split; [discriminate|]. split.
  - apply (C10_locked_particle_still_exerts_force objs 0 1). discriminate.
  - vm_compute. reflexivity.
Defined.

(* ===================================================================== *)
(** ** Further properties of the code *)
(* ===================================================================== *)

(** *** What a frame and the slider leave alone, for every arithmetic *)

Section FrameFacts.
Context {N : Number}.
Local Open Scope num_scope.
Implicit Types (o : ChargedObject) (e : PhysicsEngine).

Lemma updatePhysics_fixedFields dt fr o :
  fixedFields (updatePhysics dt fr o) = fixedFields o.
Proof.
  unfold updatePhysics, fixedFields.
  destruct (isLocked o) eqn:E; [cbn; now rewrite E|].
  cbn. match goal with |- context [if ?b then _ else _] => destruct b end;
  cbn; now rewrite E.
Qed.

Lemma resolveBounds_fixedFields e o :
  fixedFields (resolveBounds e o) = fixedFields o.
Proof. unfold resolveBounds, fixedFields. repeat case_if; reflexivity. Qed.

Lemma resolveBounds_trail e o :
  trail (resolveBounds e o) = trail o /\ trailTimer (resolveBounds e o) = trailTimer o.
Proof. unfold resolveBounds. repeat case_if; split; reflexivity. Qed.

Lemma updatePhysics_acceleration dt fr o :
  acceleration (updatePhysics dt fr o) = zero.
Proof.
  unfold updatePhysics. destruct (isLocked o); [reflexivity|].
  cbn. match goal with |- context [if ?b then _ else _] => destruct b end;
  reflexivity.
Qed.

Lemma update_friction dt e : friction (update dt e) = friction e.
Proof. reflexivity. Qed.

Lemma update_fixedFields dt e :
  fixedFields <$> objects (update dt e) = fixedFields <$> objects e.
Proof.
  rewrite update_objects, <- list_fmap_compose.
  transitivity ((fixedFields ∘ eraseAccel) <$> computeForces (objects e)).
  - apply list_fmap_ext. intros _ o _. unfold compose.
    now rewrite resolveBounds_fixedFields, updatePhysics_fixedFields.
  - rewrite list_fmap_compose, computeForces_eraseAccel, <- list_fmap_compose.
    reflexivity.
Qed.

Lemma steps_friction dts e : friction (steps dts e) = friction e.
Proof.
  induction dts as [|dt dts IH] using rev_ind; [reflexivity|].
  now rewrite steps_snoc, update_friction.
Qed.

Lemma steps_fixedFields dts e :
  fixedFields <$> objects (steps dts e) = fixedFields <$> objects e.
Proof.
  induction dts as [|dt dts IH] using rev_ind; [reflexivity|].
  now rewrite steps_snoc, update_fixedFields.
Qed.

Lemma setDistance_bounds d e : bounds (setDistance d e) = bounds e.
Proof. unfold setDistance. now destruct (objects e) as [|? [|? ?]]. Qed.

Lemma setDistance_friction d e : friction (setDistance d e) = friction e.
Proof. unfold setDistance. now destruct (objects e) as [|? [|? ?]]. Qed.

Lemma resolveBounds_set_isLocked e1 e2 b o1 o :
  bounds e1 = bounds e2 -> o1 = set_isLocked b o ->
  resolveBounds e1 o1 = set_isLocked b (resolveBounds e2 o).
Proof.
  intros E ->. unfold resolveBounds. rewrite E. destruct o as [i p v a m q r lk tr tt].
  cbn [radius position velocity set_isLocked].
  repeat case_if; try reflexivity; cbn in *; congruence.
Qed.

(** The force pass of a two-particle engine is the one pair interaction. *)
Lemma computeForces_two (A B : ChargedObject) :
  computeForces [A; B]
  = [applyForce (forceOnA A B) A; applyForce (forceOnB A B) B].
Proof. reflexivity. Qed.

End FrameFacts.

Section Frame.
Context {N : Number}.
Local Open Scope num_scope.
Implicit Types (o : ChargedObject) (e : PhysicsEngine).

(** X1.  A run of frames writes positions, velocities, accelerations and
    trails only.  Whatever the frame times, every particle keeps its id,
    mass, charge, radius and lock flag, in the same order, and the engine
    keeps its number of particles, its friction and its bounds. *)
Theorem X1_frames_keep_identity (dts : list num) e :
  fixedFields <$> objects (steps dts e) = fixedFields <$> objects e
  /\ length (objects (steps dts e)) = length (objects e)
  /\ friction (steps dts e) = friction e
  /\ bounds (steps dts e) = bounds e.
Proof.
  split; [apply steps_fixedFields|]. split; [|split].
  - rewrite <- (length_fmap fixedFields), steps_fixedFields. apply length_fmap.
  - apply steps_friction.
  - apply steps_bounds.
Qed.

(** X2.  [update] leaves every acceleration at the zero vector:
    [updatePhysics] clears it on both of its paths and [resolveBounds] never
    writes it.  The forces of one frame never carry over into the next. *)
Theorem X2_update_clears_acceleration (dt : num) e :
  Forall (fun o => acceleration o = zero) (objects (update dt e)).
Proof.
  rewrite update_objects. apply Forall_fmap, Forall_forall. intros o _.
  cbn. now rewrite resolveBounds_acceleration, updatePhysics_acceleration.
Qed.

(** X3.  On an engine of at least two particles [setDistance] writes the
    position, velocity and acceleration of the first two and nothing else:
    their id, mass, charge, radius, lock flag, trail and frame counter, the
    particles after them, the friction and the bounds are as before. *)
Theorem X3_setDistance_writes_motion_only (d : num) e A B rest :
  objects e = A :: B :: rest ->
  exists A' B',
    objects (setDistance d e) = A' :: B' :: rest
    /\ fixedFields A' = fixedFields A /\ fixedFields B' = fixedFields B
    /\ trail A' = trail A /\ trail B' = trail B
    /\ trailTimer A' = trailTimer A /\ trailTimer B' = trailTimer B
    /\ friction (setDistance d e) = friction e
    /\ bounds (setDistance d e) = bounds e.
Proof.
  intros H. rewrite (setDistance_objects d e A B rest H).
  eexists _, _. split; [reflexivity|].
  rewrite !resolveBounds_fixedFields.
  split; [reflexivity|]. split; [reflexivity|].
  rewrite !(proj1 (resolveBounds_trail _ _)), !(proj2 (resolveBounds_trail _ _)).
  repeat split. apply setDistance_friction. apply setDistance_bounds.
Qed.

(** X4.  [setDistance] never reads [isLocked]: setting the lock flag of any
    particle before the call gives the list the call gives, with that flag
    set afterwards.  The slider moves a locked particle like a free one. *)
Theorem X4_setDistance_ignores_locks (d : num) e k b :
  objects (setDistance d (set_objects (lockAt k b (objects e)) e))
  = lockAt k b (objects (setDistance d e)).
Proof.
  unfold setDistance, lockAt. cbn [objects set_objects].
  destruct (objects e) as [|A [|B rest]] eqn:E.
  - cbn. now rewrite E.
  - destruct k; cbn; now rewrite E.
  - destruct k as [|[|k]]; cbn [alter list_alter objects set_objects].
    + f_equal. now apply resolveBounds_set_isLocked.
    + f_equal. f_equal. now apply resolveBounds_set_isLocked.
    + reflexivity.
Qed.
(** X5.  [initializeDefault] reads the bounds and nothing else: after any
    run of frames, after [setDistance], and after itself it gives the state
    it gives at once. *)
Theorem X5_initializeDefault_reads_bounds_only (dts : list num) (d : num) e :
  initializeDefault (steps dts e) = initializeDefault e
  /\ initializeDefault (setDistance d e) = initializeDefault e
  /\ initializeDefault (initializeDefault e) = initializeDefault e.
Proof.
  unfold initializeDefault, set_friction, set_objects. cbn [bounds objects].
  rewrite steps_bounds, setDistance_bounds. auto.
Qed.

End Frame.

(** The theorem at the default engine. *)
Lemma X3_witness :
  exists A' B',
    objects (setDistance (N := JS.number) 200%float newPhysicsEngine) = [A'; B']
    /\ fixedFields A' = fixedFields (fobject "obj1" 250 300 1 5).
Proof.
  destruct (X3_setDistance_writes_motion_only (N := JS.number) 200%float
              newPhysicsEngine _ _ [] eq_refl) as (A' & B' & H & Hf & _).
  exists A', B'. split; [exact H|exact Hf].
Defined.

(** *** The default placement in ideal arithmetic *)

Section IdealLayoutFacts.
Local Open Scope R_scope.
Implicit Types (v : @Vector2 Ideal.number) (o : @ChargedObject Ideal.number)
  (e : @PhysicsEngine Ideal.number).

(** The separation [initializeDefault] computes from the canvas size. *)
Lemma defaultSeparation_range (w h : R) :
  150 <= Rmax 150 (Rmin 300 (Rmin w h * (6 / 10))) <= 300.
Proof.
  unfold Rmax, Rmin. repeat destruct (Rle_dec _ _); lra.
Qed.

Lemma vector_ext v1 v2 : x v1 = x v2 -> y v1 = y v2 -> v1 = v2.
Proof. destruct v1, v2; cbn; congruence. Qed.

Lemma distanceTo_magnitude v1 v2 : distanceTo v1 v2 = magnitude (subtract v1 v2).
Proof. reflexivity. Qed.

Lemma distanceTo_horizontal (a b c : R) :
  a <= b -> distanceTo (rvec a c) (rvec b c) = b - a.
Proof.
  intros H. unfold distanceTo, rvec. cbn. ideal.
  replace ((a - b) * (a - b) + (c - c) * (c - c)) with (Rsqr (b - a))
    by (unfold Rsqr; ring).
  apply sqrt_Rsqr. lra.
Qed.

End IdealLayoutFacts.

Section IdealLayout.
Local Open Scope R_scope.
Implicit Types (v : @Vector2 Ideal.number) (o : @ChargedObject Ideal.number)
  (e : @PhysicsEngine Ideal.number).

(** X6.  In ideal arithmetic [initializeDefault] leaves exactly two
    particles, both at half the canvas height and mirrored about the
    vertical centre line, the second to the right of the first, between 150
    and 300 apart, and exactly 0.6 times the smaller canvas dimension apart
    when that dimension is between 250 and 500.  They carry the charges [5]
    and [-5], mass [1], radius [22], no velocity and no lock. *)
Theorem X6_initializeDefault_layout e :
  let w := width (bounds e) in
  let h := height (bounds e) in
  exists A B,
    objects (initializeDefault e) = [A; B]
    /\ y (position A) = h / 2 /\ y (position B) = h / 2
    /\ x (position A) + x (position B) = w
    /\ distanceTo (position A) (position B) = x (position B) - x (position A)
    /\ 150 <= distanceTo (position A) (position B) <= 300
    /\ (250 <= Rmin w h <= 500 ->
        distanceTo (position A) (position B) = Rmin w h * (6 / 10))
    /\ charge A = 5 /\ charge B = -5
    /\ mass A = 1 /\ mass B = 1 /\ radius A = 22 /\ radius B = 22
    /\ velocity A = zero /\ velocity B = zero
    /\ isLocked A = false /\ isLocked B = false.
Proof.
  intros w h. eexists _, _. split; [reflexivity|].
  cbn [position newChargedObject x y charge mass radius velocity isLocked].
  unfold dec. ideal. fold w h.
  pose proof (defaultSeparation_range w h) as Hs.
  set (s := Rmax 150 (Rmin 300 (Rmin w h * (6 / 10)))) in *.
  assert (Hd : distanceTo (N := Ideal.number)
                 (mkVector2 (w / 2 - s / 2) (h / 2)) (mkVector2 (w / 2 + s / 2) (h / 2))
               = w / 2 + s / 2 - (w / 2 - s / 2)).
  { apply (distanceTo_horizontal (w / 2 - s / 2) (w / 2 + s / 2) (h / 2)). lra. }
  rewrite Hd, sqrt_1.
  repeat split; try reflexivity; try lra.
  intros Hm. subst s. unfold Rmax, Rmin in *.
  repeat destruct (Rle_dec _ _); lra.
Qed.

(** X7.  In ideal arithmetic the two particles of [initializeDefault] lie
    within the bounds of their radius exactly when the canvas is at least
    194 wide and 44 high; on a smaller canvas the default placement itself
    is out of bounds. *)
Theorem X7_initializeDefault_inBounds_iff e :
  Forall (inBounds (initializeDefault e)) (objects (initializeDefault e))
  <-> 194 <= width (bounds e) /\ 44 <= height (bounds e).
Proof.
  cbn [initializeDefault objects set_objects set_friction].
  rewrite !Forall_cons, Forall_nil.
  unfold inBounds.
  cbn [position newChargedObject x y radius bounds initializeDefault set_friction set_objects].
  unfold dec. ideal. rewrite sqrt_1.
  set (w := width (bounds e)). set (h := height (bounds e)).
  unfold Rmax, Rmin. repeat destruct (Rle_dec _ _); lra.
Qed.

(** The theorem on a canvas of 400 by 300: the two are 180 apart. *)
Lemma X6_witness :
  let e := set_bounds (mkBounds 400 300) (newPhysicsEngine (N := Ideal.number)) in
  exists A B,
    objects (initializeDefault e) = [A; B]
    /\ distanceTo (position A) (position B) = 180.
Proof.
  intros e. destruct (X6_initializeDefault_layout e)
    as (A & B & H & _ & _ & _ & _ & _ & Hd & _).
  exists A, B. split; [exact H|]. rewrite Hd.
  - cbn. unfold Rmin. destruct (Rle_dec _ _); lra.
  - cbn. unfold Rmin. destruct (Rle_dec _ _); lra.
Defined.

(** The theorem on the canvas of the constructor, 800 by 600. *)
Lemma X7_witness :
  let e := initializeDefault (newPhysicsEngine (N := Ideal.number)) in
  Forall (inBounds e) (objects e).
Proof.
  intros e. apply (proj2 (X7_initializeDefault_inBounds_iff newPhysicsEngine)).
  cbn. lra.
Defined.

End IdealLayout.

(** *** Resizing the canvas *)

Section ResizeFacts.
Context {N : Number}.
Local Open Scope num_scope.
Implicit Types (o : ChargedObject) (e : PhysicsEngine).

Lemma resize_lookup w h e k o :
  objects e !! k = Some o ->
  let dx := (w - width (bounds e)) / ofZ 2 in
  let dy := (h - height (bounds e)) / ofZ 2 in
  let shift (pt : Vector2) := mkVector2 (x pt + dx) (y pt + dy) in
  objects (resize w h e) !! k
  = Some (set_trail (map shift (trail o)) (set_position (shift (position o)) o)).
Proof.
  intros H. cbn. unfold resize. cbn [objects set_objects set_bounds].
  change (@map ?A ?B) with (@fmap list _ A B).
  rewrite list_lookup_fmap, H. reflexivity.
Qed.

End ResizeFacts.

Section IdealResize.
Local Open Scope R_scope.
Implicit Types (v : @Vector2 Ideal.number) (o : @ChargedObject Ideal.number)
  (e : @PhysicsEngine Ideal.number).

(** X8.  In ideal arithmetic [resize] keeps every particle where it was
    relative to the centre of the canvas, and moves its trail rigidly with
    it; velocity, acceleration and the fixed fields are untouched and the
    bounds are the new ones. *)
Theorem X8_resize_keeps_centre_offsets (w h : R) e k o :
  objects e !! k = Some o ->
  exists o',
    objects (resize w h e) !! k = Some o'
    /\ x (position o') - w / 2 = x (position o) - width (bounds e) / 2
    /\ y (position o') - h / 2 = y (position o) - height (bounds e) / 2
    /\ length (trail o') = length (trail o)
    /\ (forall i p, trail o !! i = Some p ->
          exists p', trail o' !! i = Some p'
                     /\ subtract p' (position o') = subtract p (position o))
    /\ velocity o' = velocity o /\ acceleration o' = acceleration o
    /\ fixedFields o' = fixedFields o
    /\ bounds (resize w h e) = mkBounds w h.
Proof.
  intros H. eexists. split; [apply (resize_lookup w h e k o H)|].
  cbn [position trail set_trail set_position x y velocity acceleration].
  ideal. split; [lra|]. split; [lra|]. split; [apply length_map|].
  split; [|repeat split].
  intros i p Hp. eexists. split.
  - change (@map ?A ?B) with (@fmap list _ A B).
    rewrite list_lookup_fmap, Hp. reflexivity.
  - apply vector_ext; cbn; ideal; lra.
Qed.

(** The theorem at the first particle of the default engine, resized to
    1000 by 700. *)
Lemma X8_witness :
  exists o', objects (resize 1000 700 (newPhysicsEngine (N := Ideal.number))) !! 0%nat
             = Some o'
    /\ x (position o') - 1000 / 2 = - (Rmax 150 (Rmin 300 (Rmin 800 600 * (6 / 10)))) / 2.
Proof.
  destruct (X8_resize_keeps_centre_offsets 1000 700 newPhysicsEngine 0 _ eq_refl)
    as (o' & H1 & H2 & _).
  exists o'. split; [exact H1|]. rewrite H2. cbn. unfold dec. ideal. lra.
Defined.

(** X9.  In ideal arithmetic two resizes in a row are the second one alone,
    and a resize to the current size changes nothing. *)
Theorem X9_resize_composes (w1 h1 w2 h2 : R) e :
  resize w2 h2 (resize w1 h1 e) = resize w2 h2 e
  /\ resize (width (bounds e)) (height (bounds e)) e = e.
Proof.
  split.
  - unfold resize, set_objects, set_bounds.
    cbn [bounds objects width height friction].
    f_equal. rewrite map_map. apply map_ext. intros o.
    destruct o as [i p v a m q r lk tr tt]. unfold set_trail, set_position. cbn.
    f_equal.
    + apply vector_ext; cbn; ideal; lra.
    + rewrite map_map. apply map_ext. intros pt. apply vector_ext; cbn; ideal; lra.
  - destruct e as [l fr [w h]]. unfold resize, set_objects, set_bounds.
    cbn [bounds objects width height friction]. f_equal.
    rewrite <- (map_id l) at 2. apply map_ext. intros o.
    destruct o as [i p v a m q r lk tr tt]. unfold set_trail, set_position. cbn.
    f_equal.
    + apply vector_ext; cbn; ideal; lra.
    + rewrite <- (map_id tr) at 2. apply map_ext. intros pt.
      apply vector_ext; cbn; ideal; lra.
Qed.

End IdealResize.

(** *** Walls, friction and locks in ideal arithmetic *)

Section IdealWallFacts.
Local Open Scope R_scope.
Implicit Types (v : @Vector2 Ideal.number) (o : @ChargedObject Ideal.number)
  (e : @PhysicsEngine Ideal.number).

(** Inside the walls [resolveBounds] does nothing at all. *)
Lemma resolveBounds_id e o : inBounds e o -> resolveBounds e o = o.
Proof.
  intros [[H1 H2] [H3 H4]]. unfold resolveBounds. ideal.
  rewrite (proj2 (ideal_ltb_false (x (position o)) (radius o))) by lra.
  rewrite (proj2 (ideal_ltb_false _ (x (position o)))) by exact H2.
  rewrite (proj2 (ideal_ltb_false (y (position o)) (radius o))) by lra.
  rewrite (proj2 (ideal_ltb_false _ (y (position o)))) by exact H4.
  reflexivity.
Qed.

Lemma inBounds_ext e1 e2 o1 o2 :
  bounds e1 = bounds e2 -> position o1 = position o2 -> radius o1 = radius o2 ->
  inBounds e1 o1 -> inBounds e2 o2.
Proof. unfold inBounds. intros -> -> ->. auto. Qed.

Lemma magnitude_multiply v (c : R) :
  magnitude (multiply v c) = Rabs c * magnitude v.
Proof.
  unfold magnitude, multiply. cbn. ideal.
  replace (x v * c * (x v * c) + y v * c * (y v * c))
    with (Rsqr c * (x v * x v + y v * y v)) by (unfold Rsqr; ring).
  rewrite sqrt_mult; [|apply Rle_0_sqr|apply sumsq_nonneg].
  now rewrite sqrt_Rsqr_abs.
Qed.

End IdealWallFacts.

Section IdealWalls.
Local Open Scope R_scope.
Implicit Types (v : @Vector2 Ideal.number) (o : @ChargedObject Ideal.number)
  (e : @PhysicsEngine Ideal.number).

(** X10.  In ideal arithmetic a locked particle that lies within the
    bounds stays where it is through any run of frames, whatever the other
    particles do: the force pass does not move it, [updatePhysics] returns
    early and [resolveBounds] has nothing to clamp.  Its trail is never
    extended, and after the first frame it has no velocity and no
    acceleration. *)
Theorem X10_locked_inside_stays (dts : list R) e k o :
  objects e !! k = Some o -> isLocked o = true -> inBounds e o ->
  exists o',
    objects (steps dts e) !! k = Some o'
    /\ position o' = position o /\ isLocked o' = true /\ radius o' = radius o
    /\ trail o' = trail o
    /\ (dts <> [] -> velocity o' = zero /\ acceleration o' = zero).
Proof.
  intros Hk Hl Hin.
  induction dts as [|dt dts IH] using rev_ind.
  - exists o. repeat split; auto. all: congruence.
  - destruct IH as (o1 & H1 & Hp & Hl1 & Hr & Ht & _).
    rewrite steps_snoc, update_objects, list_lookup_fmap.
    destruct (computeForces (objects (steps dts e)) !! k) as [o2|] eqn:E2.
    2:{ apply lookup_ge_None in E2. rewrite computeForces_length in E2.
        apply lookup_lt_Some in H1. lia. }
    destruct (computeForces_lookup _ _ _ E2) as (o1' & H1' & He).
    assert (o1' = o1) by congruence. subst o1'.
    assert (Hp2 : position o2 = position o1) by exact (f_equal position He).
    assert (Hl2 : isLocked o2 = true)
      by (rewrite <- Hl1; exact (f_equal isLocked He)).
    assert (Hr2 : radius o2 = radius o1) by exact (f_equal radius He).
    assert (Ht2 : trail o2 = trail o1) by exact (f_equal trail He).
    cbn [fmap option_fmap option_map].
    rewrite (updatePhysics_locked _ _ _ Hl2).
    set (o3 := set_acceleration zero (set_velocity zero o2)).
    assert (Hin3 : inBounds (steps dts e) o3).
    { apply (inBounds_ext e _ o); auto.
      - now rewrite steps_bounds.
      - cbn. congruence.
      - cbn. congruence. }
    rewrite (resolveBounds_id _ _ Hin3).
    exists o3. cbn. repeat split; congruence.
Qed.

(** The theorem at a locked particle next to a free one of opposite
    charge, over two frames. *)
Lemma X10_witness :
  exists o',
    objects (steps [1 / 60; 1 / 60]
               (set_objects [set_isLocked true (robject "a" 100 100 1 5);
                             robject "b" 300 100 1 (-5)]
                  (newPhysicsEngine (N := Ideal.number)))) !! 0%nat = Some o'
    /\ position o' = rvec 100 100.
Proof.
  destruct (X10_locked_inside_stays [1 / 60; 1 / 60]
              (set_objects [set_isLocked true (robject "a" 100 100 1 5);
                            robject "b" 300 100 1 (-5)]
                 (newPhysicsEngine (N := Ideal.number)))
              0 _ eq_refl eq_refl) as (o' & H1 & H2 & _).
  - unfold inBounds. cbn. ideal. rewrite sqrt_1. lra.
  - exists o'. split; [exact H1|exact H2].
Defined.

(** X11.  In ideal arithmetic, for an unlocked particle: the position
    advances by the new velocity times [dt] (the velocity is updated first);
    the friction factor is never negative; and with no force applied the
    velocity is scaled by that factor, so that for [friction * dt >= 0] the
    speed does not grow, and for [friction * dt * 60 >= 1] the particle
    stops dead rather than turn round. *)
Theorem X11_friction_slows (dt fr : R) o :
  isLocked o = false ->
  let o' := updatePhysics dt fr o in
  let c := Rmax 0 (1 - fr * dt * 60) in
  0 <= c
  /\ position o' = add (position o) (multiply (velocity o') dt)
  /\ (acceleration o = zero ->
      velocity o' = multiply (velocity o) c
      /\ (0 <= fr * dt -> magnitude (velocity o') <= magnitude (velocity o))
      /\ (1 <= fr * dt * 60 -> velocity o' = zero)).
Proof.
  intros Hl o' c.
  assert (Hc : 0 <= c) by apply Rmax_l.
  assert (Hv : velocity o'
               = add (multiply (velocity o) c) (multiply (acceleration o) dt)).
  { unfold o', updatePhysics. rewrite Hl. cbn.
    match goal with |- context [if ?b then _ else _] => destruct b end;
      reflexivity. }
  assert (Hp : position o' = add (position o) (multiply (velocity o') dt)).
  { rewrite Hv. unfold o', updatePhysics. rewrite Hl. cbn.
    match goal with |- context [if ?b then _ else _] => destruct b end;
      reflexivity. }
  split; [exact Hc|]. split; [exact Hp|].
  intros Ha. rewrite Ha in Hv.
  assert (Hv' : velocity o' = multiply (velocity o) c).
  { rewrite Hv. apply vector_ext; cbn; ideal; ring. }
  split; [exact Hv'|]. split.
  - intros Hf. rewrite Hv', magnitude_multiply.
    assert (c <= 1) by (unfold c, Rmax; destruct (Rle_dec _ _); lra).
    rewrite Rabs_pos_eq by exact Hc.
    pose proof (magnitude_nonneg (velocity o)). nra.
  - intros Hf. rewrite Hv'.
    assert (c = 0) by (unfold c, Rmax; destruct (Rle_dec _ _); lra).
    apply vector_ext; cbn; ideal; nra.
Qed.

(** The theorem at a particle of velocity [(3, 4)], one frame of friction
    0.01. *)
Lemma X11_witness :
  let o := set_velocity (rvec 3 4) (robject "a" 100 100 1 5) in
  magnitude (velocity (updatePhysics (1 / 60) (1 / 100) o)) <= magnitude (velocity o).
Proof.
  intros o.
  destruct (X11_friction_slows (1 / 60) (1 / 100) o eq_refl) as (_ & _ & H).
  destruct (H eq_refl) as (_ & H2 & _). apply H2. lra.
Defined.

(** X12.  In ideal arithmetic [resolveBounds] changes nothing on a
    particle within the bounds, and when the diameter fits the canvas a
    second call changes nothing after the first. *)
Theorem X12_resolveBounds_idempotent e o :
  (inBounds e o -> resolveBounds e o = o)
  /\ (radius o <= width (bounds e) - radius o ->
      radius o <= height (bounds e) - radius o ->
      resolveBounds e (resolveBounds e o) = resolveBounds e o).
Proof.
  split; [apply resolveBounds_id|].
  intros Hw Hh. apply resolveBounds_id. now apply resolveBounds_inBounds.
Qed.

(** The theorem at a particle inside, and at one outside, the default
    canvas. *)
Lemma X12_witness :
  let e := newPhysicsEngine (N := Ideal.number) in
  resolveBounds e (robject "a" 100 100 1 5) = robject "a" 100 100 1 5
  /\ resolveBounds e (resolveBounds e (robject "a" 900 (-5) 1 5))
     = resolveBounds e (robject "a" 900 (-5) 1 5).
Proof.
  intros e. split.
  - apply (proj1 (X12_resolveBounds_idempotent e (robject "a" 100 100 1 5))).
    unfold inBounds. cbn. ideal. rewrite sqrt_1. lra.
  - apply (proj2 (X12_resolveBounds_idempotent e (robject "a" 900 (-5) 1 5)));
      cbn; ideal; rewrite sqrt_1; lra.
Defined.

(** X13.  In ideal arithmetic [resolveBounds] never makes a velocity
    component larger in absolute value, and after a clamp the component
    does not point out of the wall that was hit: not to the left at the
    left wall, not to the right at the right wall, and likewise for the top
    and bottom walls. *)
Theorem X13_resolveBounds_bounce e o :
  let o' := resolveBounds e o in
  Rabs (x (velocity o')) <= Rabs (x (velocity o))
  /\ Rabs (y (velocity o')) <= Rabs (y (velocity o))
  /\ (x (position o) < radius o -> 0 <= x (velocity o'))
  /\ (radius o <= x (position o) -> width (bounds e) - radius o < x (position o) ->
      x (velocity o') <= 0)
  /\ (y (position o) < radius o -> 0 <= y (velocity o'))
  /\ (radius o <= y (position o) -> height (bounds e) - radius o < y (position o) ->
      y (velocity o') <= 0).
Proof.
  cbv zeta. unfold resolveBounds, dec. ideal.
  repeat case_if;
    repeat match goal with
    | H : Ideal.ltb _ _ = true |- _ => apply ideal_ltb_true in H
    | H : Ideal.ltb _ _ = false |- _ => apply ideal_ltb_false in H
    end;
    cbn [velocity set_velocity set_position set_x set_y x y position radius];
    repeat split; intros;
    try (unfold Rabs; repeat destruct (Rcase_abs _)); lra.
Qed.

(** The theorem at a particle moving left through the left wall. *)
Lemma X13_witness :
  let e := newPhysicsEngine (N := Ideal.number) in
  0 <= x (velocity (resolveBounds e (set_velocity (rvec (-8) 0) (robject "a" 10 100 1 5)))).
Proof.
  intros e.
  apply (X13_resolveBounds_bounce e (set_velocity (rvec (-8) 0) (robject "a" 10 100 1 5))).
  cbn. ideal. rewrite sqrt_1. lra.
Defined.

End IdealWalls.

(** *** Vectors and the separation slider in ideal arithmetic *)

Section IdealVectorFacts.
Local Open Scope R_scope.
Implicit Types (u v a b c : @Vector2 Ideal.number) (o : @ChargedObject Ideal.number)
  (e : @PhysicsEngine Ideal.number).

Lemma magnitude_unit_normalize u : magnitude u = 1 -> normalize u = u.
Proof.
  intros H. unfold normalize. ideal.
  rewrite (proj2 (ideal_eqb_false (magnitude u) 0)) by lra.
  rewrite H. apply vector_ext; cbn; ideal; field.
Qed.

Lemma normalize_scale v (k : R) : 0 < k -> normalize (multiply v k) = normalize v.
Proof.
  intros Hk.
  destruct (Req_dec_T (magnitude v) 0) as [H0|H0].
  - apply magnitude_zero_iff in H0. subst v. now rewrite multiply_zero.
  - assert (Hm : magnitude (multiply v k) = k * magnitude v)
      by (rewrite magnitude_multiply, Rabs_pos_eq; lra).
    unfold normalize. ideal. rewrite Hm.
    rewrite (proj2 (ideal_eqb_false (magnitude v) 0)) by exact H0.
    rewrite (proj2 (ideal_eqb_false (k * magnitude v) 0))
      by (apply Rmult_integral_contrapositive_currified; [lra | exact H0]).
    apply vector_ext; cbn; ideal; field; repeat split; try assumption; lra.
Qed.

Lemma magnitude_triangle u v : magnitude (add u v) <= magnitude u + magnitude v.
Proof.
  pose proof (magnitude_nonneg u) as Hu. pose proof (magnitude_nonneg v) as Hv.
  pose proof (magnitude_sqr u) as Su. pose proof (magnitude_sqr v) as Sv.
  pose proof (magnitude_nonneg (add u v)) as Hw.
  pose proof (magnitude_sqr (add u v)) as Sw.
  cbn [add x y] in Sw. ideal.
  set (p := magnitude u) in *. set (q := magnitude v) in *.
  set (r := magnitude (add u v)) in *. clearbody p q r.
  assert (Hdot : x u * x v + y u * y v <= p * q).
  { destruct (Rle_dec (x u * x v + y u * y v) (p * q)) as [|Hn]; [assumption|].
    exfalso. apply Rnot_le_lt in Hn.
    assert (p * q * (p * q) < (x u * x v + y u * y v) * (x u * x v + y u * y v))
      by (assert (0 <= p * q) by (apply Rmult_le_pos; assumption);
          apply Rmult_le_0_lt_compat; assumption).
    pose proof (Rle_0_sqr (x u * y v - y u * x v)) as Hsq. unfold Rsqr in Hsq.
    nra. }
  destruct (Rle_dec r (p + q)) as [|Hn]; [assumption|].
  exfalso. apply Rnot_le_lt in Hn. nra.
Qed.

End IdealVectorFacts.

Section IdealVectors.
Local Open Scope R_scope.
Implicit Types (u v a b c : @Vector2 Ideal.number) (o : @ChargedObject Ideal.number)
  (e : @PhysicsEngine Ideal.number).

(** X14.  In ideal arithmetic [normalize] is idempotent, gives a vector of
    magnitude 1 on every vector but the zero vector, and does not see a
    positive scaling of its argument. *)
Theorem X14_normalize_unit v (k : R) :
  normalize (normalize v) = normalize v
  /\ (v <> zero -> magnitude (normalize v) = 1)
  /\ (0 < k -> normalize (multiply v k) = normalize v).
Proof.
  split; [|split].
  - destruct (Req_dec_T (magnitude v) 0) as [H0|H0].
    + apply magnitude_zero_iff in H0. subst v. now rewrite !normalize_zero.
    + apply magnitude_unit_normalize, normalize_nonzero.
      intros ->. apply H0. now apply magnitude_zero_iff.
  - intros H. apply normalize_nonzero, H.
  - apply normalize_scale.
Qed.

(** The theorem at the vector [(3, 4)]. *)
Lemma X14_witness :
  magnitude (normalize (rvec 3 4)) = 1
  /\ normalize (multiply (rvec 3 4) 2) = normalize (rvec 3 4).
Proof.
  split.
  - apply (proj1 (proj2 (X14_normalize_unit (rvec 3 4) 2))).
    unfold rvec, zero. cbn. intros H. injection H. intros. lra.
  - apply (proj2 (proj2 (X14_normalize_unit (rvec 3 4) 2))). lra.
Defined.

(** X15.  In ideal arithmetic [distanceTo] is the magnitude of the
    difference and a metric: symmetric, not negative, zero exactly between
    equal points, and subject to the triangle inequality. *)
Theorem X15_distanceTo_metric a b c :
  distanceTo a b = magnitude (subtract b a)
  /\ distanceTo a b = distanceTo b a
  /\ 0 <= distanceTo a b
  /\ (distanceTo a b = 0 <-> a = b)
  /\ distanceTo a c <= distanceTo a b + distanceTo b c.
Proof.
  assert (Hs : forall p q : @Vector2 Ideal.number, distanceTo p q = distanceTo q p).
  { intros p q. unfold distanceTo. cbn. ideal. f_equal. ring. }
  split; [|split; [|split; [|split]]].
  - rewrite Hs. reflexivity.
  - apply Hs.
  - rewrite distanceTo_magnitude. apply magnitude_nonneg.
  - rewrite distanceTo_magnitude, magnitude_zero_iff. apply subtract_zero_iff.
  - rewrite !distanceTo_magnitude.
    replace (subtract a c) with (add (subtract a b) (subtract b c))
      by (apply vector_ext; cbn; ideal; ring).
    apply magnitude_triangle.
Qed.

(** X16.  In ideal arithmetic, when [resolveBounds] moves neither target,
    [setDistance(d)] keeps the sum of the two positions (so their midpoint),
    puts the second particle at [d] times the separation direction from the
    first, and for [d > 0] and distinct positions keeps the direction from
    the first to the second. *)
Theorem X16_setDistance_keeps_midpoint e A B rest (d : R) :
  objects e = A :: B :: rest ->
  inBounds e (set_position (fst (separationTargets d A B)) A) ->
  inBounds e (set_position (snd (separationTargets d A B)) B) ->
  exists A' B',
    objects (setDistance d e) = A' :: B' :: rest
    /\ add (position A') (position B') = add (position A) (position B)
    /\ subtract (position B') (position A') = multiply (separationDir A B) d
    /\ (0 < d -> position A <> position B ->
        normalize (subtract (position B') (position A'))
        = normalize (subtract (position B) (position A))).
Proof.
  intros H HA HB. rewrite (setDistance_objects d e A B rest H).
  eexists _, _. split; [reflexivity|].
  rewrite !resolveBounds_inside by exact HA || exact HB.
  cbn [position set_position set_velocity set_acceleration].
  assert (Hsum : add (fst (separationTargets d A B)) (snd (separationTargets d A B))
                 = add (position A) (position B)).
  { unfold separationTargets, dec. apply vector_ext; cbn; ideal; field. }
  assert (Hdiff : subtract (snd (separationTargets d A B)) (fst (separationTargets d A B))
                  = multiply (separationDir A B) d).
  { unfold separationTargets, dec. apply vector_ext; cbn; ideal; field. }
  split; [exact Hsum|]. split; [exact Hdiff|].
  intros Hd Hne. rewrite Hdiff, normalize_scale by exact Hd.
  unfold separationDir.
  assert (Hn : subtract (position B) (position A) <> zero).
  { intros Hz. apply (proj1 (subtract_zero_iff _ _)) in Hz. congruence. }
  destruct (normalize_nonzero _ Hn) as (_ & Hu & _).
  ideal. rewrite (proj2 (ideal_eqb_false _ 0)) by (rewrite Hu; lra).
  now apply magnitude_unit_normalize.
Qed.

End IdealVectors.

Section IdealVectorsAt.
Local Open Scope R_scope.

(** The theorem at two equal points. *)
Lemma X15_witness : distanceTo (rvec 1 2) (rvec 1 2) = 0.
Proof.
  apply (proj2 (proj1 (proj2 (proj2 (proj2
           (X15_distanceTo_metric (rvec 1 2) (rvec 1 2) (rvec 0 0))))))).
  reflexivity.
Defined.

(** The theorem at two coincident particles in the middle of the default
    canvas, separated by 100. *)
Lemma X16_witness :
  let A := robject "a" 400 300 1 5 in
  let B := robject "b" 400 300 1 (-5) in
  let e := set_objects [A; B] (newPhysicsEngine (N := Ideal.number)) in
  exists A' B',
    objects (setDistance 100 e) = [A'; B']
    /\ add (position A') (position B') = add (position A) (position B).
Proof.
  intros A B e.
  destruct (X16_setDistance_keeps_midpoint e A B [] 100 eq_refl)
    as (A' & B' & H1 & H2 & _).
  - unfold inBounds, separationTargets.
    rewrite (separationDir_coincident A B eq_refl).
    unfold dec. cbn. ideal. rewrite sqrt_1. lra.
  - unfold inBounds, separationTargets.
    rewrite (separationDir_coincident A B eq_refl).
    unfold dec. cbn. ideal. rewrite sqrt_1. lra.
  - exists A', B'. split; [exact H1|exact H2].
Defined.

End IdealVectorsAt.

(** *** The force pass in ideal arithmetic *)

Section IdealForcePassFacts.
Local Open Scope R_scope.
Implicit Types (u v a b c : @Vector2 Ideal.number) (o A B : @ChargedObject Ideal.number)
  (e : @PhysicsEngine Ideal.number) (l : list (@ChargedObject Ideal.number)).

Lemma distanceTo_flip a b : distanceTo a b = magnitude (subtract b a).
Proof. unfold distanceTo, magnitude. cbn. ideal. f_equal. ring. Qed.

Lemma applyForce_zero o : applyForce zero o = o.
Proof.
  unfold applyForce. destruct (isLocked o); [reflexivity|].
  destruct o as [i p v [ax ay] m q r lk tr tt]. unfold set_acceleration. cbn.
  f_equal. apply vector_ext; cbn; ideal; ring.
Qed.

Lemma interact_neutral i j l :
  (forall A B, l !! i = Some A -> l !! j = Some B -> charge A * charge B = 0) ->
  interact i j l = l.
Proof.
  intros Hq. unfold interact.
  destruct (l !! i) as [A|] eqn:Ei; [|reflexivity].
  destruct (l !! j) as [B|] eqn:Ej; [|reflexivity].
  unfold forceOnB.
  rewrite (proj2 (proj2 (forceOnA_cases A B)) (Hq A B eq_refl eq_refl)).
  rewrite multiply_zero, !applyForce_zero.
  rewrite (list_insert_id l i A Ei). apply list_insert_id, Ej.
Qed.

Lemma fold_left_fixed {S T : Type} (g : S -> T -> S) (ks : list T) (a : S) :
  (forall k, In k ks -> g a k = a) -> fold_left g ks a = a.
Proof.
  induction ks as [|k ks IH]; [reflexivity|]. intros H. cbn.
  rewrite (H k (or_introl eq_refl)). apply IH. intros k' Hk'. apply H. now right.
Qed.

End IdealForcePassFacts.

Section IdealForcePass.
Local Open Scope R_scope.
Implicit Types (u v a b c : @Vector2 Ideal.number) (o A B : @ChargedObject Ideal.number)
  (e : @PhysicsEngine Ideal.number) (l : list (@ChargedObject Ideal.number)).

(** X17.  In ideal arithmetic, when the charges of every two distinct
    particles multiply to zero (for one, when at most one particle is
    charged) the force pass changes no particle at all. *)
Theorem X17_no_force_without_charge l :
  (forall i j A B, i <> j -> l !! i = Some A -> l !! j = Some B ->
                   charge A * charge B = 0) ->
  computeForces l = l.
Proof.
  intros Hq. unfold computeForces. apply fold_left_fixed. intros i _.
  unfold forcesFrom. apply fold_left_fixed. intros j Hj.
  apply in_seq in Hj. apply interact_neutral. intros A B. apply Hq. lia.
Qed.

(** The theorem at one charged particle among two neutral ones. *)
Lemma X17_witness :
  let l := [set_acceleration (rvec 1 2) (robject "a" 100 100 1 5);
            robject "b" 200 100 1 0; robject "c" 300 100 2 0] in
  computeForces l = l.
Proof.
  intros l. apply (X17_no_force_without_charge l).
  intros [|[|[|i]]] [|[|[|j]]] A B Hij HA HB; try congruence;
    cbn in HA, HB; try discriminate;
    injection HA as <-; injection HB as <-; cbn; ideal; ring.
Defined.

(** X18.  In ideal arithmetic, on two unlocked particles of non-zero mass
    the force pass adds to each acceleration the force on that particle
    divided by its mass, so that the mass-weighted sum of the two
    accelerations is the one before the pass. *)
Theorem X18_two_body_momentum A B :
  isLocked A = false -> isLocked B = false -> mass A <> 0 -> mass B <> 0 ->
  exists A' B',
    computeForces [A; B] = [A'; B']
    /\ multiply (subtract (acceleration A') (acceleration A)) (mass A) = forceOnA A B
    /\ multiply (subtract (acceleration B') (acceleration B)) (mass B) = forceOnB A B
    /\ add (multiply (acceleration A') (mass A)) (multiply (acceleration B') (mass B))
       = add (multiply (acceleration A) (mass A)) (multiply (acceleration B) (mass B)).
Proof.
  intros HA HB Hm1 Hm2. rewrite computeForces_two. eexists _, _.
  split; [reflexivity|].
  unfold applyForce, forceOnB. rewrite HA, HB.
  cbn [acceleration set_acceleration].
  split; [|split]; apply vector_ext; cbn; ideal; field; repeat split; assumption.
Qed.

(** The theorem at two particles of masses 1 and 2. *)
Lemma X18_witness :
  let A := robject "a" 100 100 1 5 in
  let B := robject "b" 300 100 2 (-5) in
  exists A' B',
    computeForces [A; B] = [A'; B']
    /\ add (multiply (acceleration A') 1) (multiply (acceleration B') 2)
       = add (multiply (acceleration A) 1) (multiply (acceleration B) 2).
Proof.
  intros A B.
  destruct (X18_two_body_momentum A B eq_refl eq_refl) as (A' & B' & H1 & _ & _ & H2).
  - cbn. lra.
  - cbn. lra.
  - exists A', B'. split; [exact H1|exact H2].
Defined.

End IdealForcePass.

(** *** The two forces of a pair *)

Section IdealPairFacts.
Local Open Scope R_scope.
Implicit Types (u v a b c : @Vector2 Ideal.number) (o A B : @ChargedObject Ideal.number)
  (e : @PhysicsEngine Ideal.number).

Lemma normalize_flip v : normalize (multiply v (-1)) = multiply (normalize v) (-1).
Proof.
  unfold normalize. rewrite magnitude_flip. ideal.
  destruct (Ideal.eqb (magnitude v) 0) eqn:E.
  - symmetry. apply multiply_zero.
  - apply ideal_eqb_false in E. apply vector_ext; cbn; ideal; field; exact E.
Qed.

Lemma forceMag_sym A B : forceMag A B = forceMag B A.
Proof.
  unfold forceMag, pairDist.
  rewrite (subtract_flip (position B) (position A)), magnitude_flip.
  ideal. now rewrite (Rmult_comm (charge A) (charge B)).
Qed.

End IdealPairFacts.

Section IdealPair.
Local Open Scope R_scope.
Implicit Types (u v a b c : @Vector2 Ideal.number) (o A B : @ChargedObject Ideal.number)
  (e : @PhysicsEngine Ideal.number).

(** X19.  In ideal arithmetic the pair computation does not depend on the
    order of the pair: the magnitude is the same, the force on the first of
    [(B, A)] is the force on the second of [(A, B)], both forces have the
    same magnitude, and for distinct positions that magnitude is
    [forceMag]. *)
Theorem X19_force_pair_symmetric A B :
  forceMag B A = forceMag A B
  /\ forceOnA B A = forceOnB A B
  /\ magnitude (forceOnB A B) = magnitude (forceOnA A B)
  /\ (position A <> position B -> magnitude (forceOnA A B) = forceMag A B).
Proof.
  split; [apply forceMag_sym|]. split; [|split].
  - unfold forceOnB, forceOnA.
    rewrite (forceMag_sym B A).
    rewrite (subtract_flip (position A) (position B)), normalize_flip.
    ideal. rewrite (Rmult_comm (charge B) (charge A)).
    repeat match goal with |- context [if ?b then _ else _] => destruct b end;
      apply vector_ext; cbn; ideal; ring.
  - unfold forceOnB. ideal. apply magnitude_flip.
  - intros Hne.
    assert (Hn : subtract (position B) (position A) <> zero).
    { intros Hz. apply (proj1 (subtract_zero_iff _ _)) in Hz. congruence. }
    destruct (normalize_nonzero _ Hn) as (_ & Hu & _).
    pose proof (forceMag_nonneg A B) as HF.
    destruct (forceOnA_cases A B) as (Hneg & Hpos & Hz). cbv zeta in *.
    destruct (Rtotal_order (charge A * charge B) 0) as [Hq | [Hq | Hq]].
    + rewrite (Hneg Hq), magnitude_multiply, Hu, Rabs_pos_eq; lra.
    + rewrite (Hz Hq).
      assert (forceMag A B = 0).
      { unfold forceMag. ideal. rewrite Hq, Rabs_R0. unfold Rdiv. ring. }
      rewrite H. apply magnitude_zero_iff. reflexivity.
    + rewrite (Hpos Hq), magnitude_multiply, Hu, Rabs_Ropp, Rabs_pos_eq; lra.
Qed.

(** The theorem at two particles 200 apart. *)
Lemma X19_witness :
  let A := robject "a" 100 100 1 5 in
  let B := robject "b" 300 100 1 (-5) in
  magnitude (forceOnA A B) = forceMag A B.
Proof.
  intros A B. apply (X19_force_pair_symmetric A B).
  cbn. intros H. injection H. lra.
Defined.

End IdealPair.

(** *** The timers and readouts of [App] *)

Section IdealCallerFacts.
Local Open Scope R_scope.
Implicit Types (u v a b c : @Vector2 Ideal.number) (o A B : @ChargedObject Ideal.number)
  (e : @PhysicsEngine Ideal.number).

Lemma groundTick_cases o :
  (Rabs (charge o) < 1 / 10 -> groundTick o = (set_charge 0 o, true))
  /\ (1 / 10 <= Rabs (charge o) ->
      groundTick o = (set_charge (charge o * (8 / 10)) o, false)).
Proof.
  unfold groundTick, dec. ideal. split; intros H.
  - now rewrite (proj2 (ideal_ltb_true _ _) H).
  - now rewrite (proj2 (ideal_ltb_false _ _) H).
Qed.

(** A charge below [(1/10) * (5/4)^k] is gone after at most [k + 1] ticks. *)
Lemma groundTicks_within (k : nat) : forall o (n : nat),
  Rabs (charge o) < 1 / 10 * (5 / 4) ^ k -> (k < n)%nat ->
  groundTicks n o = (set_charge 0 o, true).
Proof.
  induction k as [|k IH]; intros o n Hq Hn.
  - destruct n as [|n]; [lia|]. cbn [groundTicks].
    rewrite (proj1 (groundTick_cases o)) by (cbn in Hq; lra). reflexivity.
  - destruct n as [|n]; [lia|]. cbn [groundTicks].
    destruct (Rlt_dec (Rabs (charge o)) (1 / 10)) as [Hs|Hs].
    + now rewrite (proj1 (groundTick_cases o) Hs).
    + rewrite (proj2 (groundTick_cases o)) by lra.
      rewrite IH; [reflexivity| |lia].
      cbn [charge set_charge]. rewrite Rabs_mult, (Rabs_pos_eq (8 / 10)) by lra.
      cbn [pow] in Hq. lra.
Qed.

Lemma groundTicks_sign (n : nat) : forall o,
  let q' := charge (fst (groundTicks n o)) in
  0 <= q' * charge o /\ Rabs q' <= Rabs (charge o).
Proof.
  induction n as [|n IH]; intros o; cbn [groundTicks].
  - cbn. split; [nra|lra].
  - destruct (Rlt_dec (Rabs (charge o)) (1 / 10)) as [Hs|Hs].
    + rewrite (proj1 (groundTick_cases o) Hs). cbn. rewrite Rabs_R0.
      split; [lra|apply Rabs_pos].
    + rewrite (proj2 (groundTick_cases o)) by lra.
      specialize (IH (set_charge (charge o * (8 / 10)) o)).
      cbn [charge set_charge] in IH. cbv zeta in IH. destruct IH as [I1 I2].
      rewrite Rabs_mult, (Rabs_pos_eq (8 / 10)) in I2 by lra.
      pose proof (Rabs_pos (charge o)). split; [nra|lra].
Qed.

End IdealCallerFacts.

Section IdealCallers.
Local Open Scope R_scope.
Implicit Types (u v a b c : @Vector2 Ideal.number) (o A B : @ChargedObject Ideal.number)
  (e : @PhysicsEngine Ideal.number).

(** X20.  In ideal arithmetic the force readout of [App] is the magnitude
    the engine computes for the first two particles, and its distance
    readout the magnitude of their separation; with fewer than two particles
    both readouts are 0. *)
Theorem X20_readout_matches_engine e :
  (forall A B rest, objects e = A :: B :: rest ->
      currentDist e = magnitude (subtract (position B) (position A))
      /\ calculateForceMag e = forceMag A B)
  /\ ((length (objects e) < 2)%nat -> currentDist e = 0 /\ calculateForceMag e = 0).
Proof.
  split.
  - intros A B rest H. unfold calculateForceMag, currentDist. rewrite H.
    cbn [lookup list_lookup]. rewrite distanceTo_flip.
    split; reflexivity.
  - intros H. unfold calculateForceMag, currentDist.
    destruct (objects e) as [|A [|B rest]]; cbn in *; try (split; reflexivity); lia.
Qed.

(** The theorem at the default engine, and at an engine without
    particles. *)
Lemma X20_witness :
  let e := newPhysicsEngine (N := Ideal.number) in
  (exists A B, objects e = [A; B] /\ calculateForceMag e = forceMag A B)
  /\ calculateForceMag (set_objects [] e) = 0.
Proof.
  intros e. split.
  - eexists _, _. split; [reflexivity|].
    apply (proj1 (X20_readout_matches_engine e) _ _ [] eq_refl).
  - apply (proj2 (X20_readout_matches_engine (set_objects [] e))). cbn. lia.
Defined.

(** X21.  In ideal arithmetic the grounding timer of [App] always ends
    with the charge at exactly 0, within 22 ticks for a charge of the
    slider's range [[-10, 10]]; until then the charge never changes sign
    and never grows in absolute value. *)
Theorem X21_ground_discharges o :
  (Rabs (charge o) <= 10 ->
   forall n, (22 <= n)%nat -> groundTicks n o = (set_charge 0 o, true))
  /\ (exists n, groundTicks n o = (set_charge 0 o, true))
  /\ (forall n, let q' := charge (fst (groundTicks n o)) in
                0 <= q' * charge o /\ Rabs q' <= Rabs (charge o)).
Proof.
  split; [|split].
  - intros Hq n Hn. apply (groundTicks_within 21); [|lia].
    cbn [pow]. lra.
  - pose proof (Rabs_pos (charge o)) as Hpos.
    assert (Hpow : exists k : nat, 10 * Rabs (charge o) < (5 / 4) ^ k).
    { destruct (Pow_x_infinity (5 / 4)) with (b := 10 * Rabs (charge o) + 1)
        as (k & Hk).
      - rewrite Rabs_pos_eq; lra.
      - exists k. specialize (Hk k (Nat.le_refl k)).
        rewrite Rabs_pos_eq in Hk; [lra|]. apply pow_le. lra. }
    destruct Hpow as (k & Hk). exists (S k).
    apply (groundTicks_within k); [lra|lia].
  - intros n. apply groundTicks_sign.
Qed.

(** The theorem at the charge [-10]. *)
Lemma X21_witness :
  groundTicks 22 (robject "a" 100 100 1 (-10)) = (set_charge 0 (robject "a" 100 100 1 (-10)), true).
Proof.
  apply (proj1 (X21_ground_discharges (robject "a" 100 100 1 (-10)))); [|lia].
  cbn. unfold Rabs. destruct (Rcase_abs _); lra.
Defined.

(** X22.  In ideal arithmetic the frame time of [App] is at most 0.05 and
    is negative exactly when the time stamp runs backwards.  With time
    running forwards and the friction of the slider's range [[0, 0.1]], a
    free particle under no force keeps between 70% and 100% of its velocity
    in a frame: the clamp of the friction factor at 0 is never reached. *)
Theorem X22_frame_time (time lastTime fr : R) :
  let dt := frameDt time lastTime in
  dt <= 5 / 100
  /\ (0 <= dt <-> lastTime <= time)
  /\ (lastTime <= time -> 0 <= fr <= 1 / 10 ->
      forall o, isLocked o = false -> acceleration o = zero ->
        exists k : R, 7 / 10 <= k <= 1
                  /\ velocity (updatePhysics dt fr o) = multiply (velocity o) k).
Proof.
  intros dt.
  assert (Hdt : dt <= 5 / 100 /\ (0 <= dt <-> lastTime <= time)).
  { unfold dt, frameDt, dec. ideal. unfold Rmin.
    destruct (Rle_dec _ _); split; try split; intros; lra. }
  destruct Hdt as [H1 H2]. split; [exact H1|]. split; [exact H2|].
  intros Ht Hf o Hl Ha. apply H2 in Ht.
  exists (1 - fr * dt * 60).
  assert (0 <= fr * dt <= 1 / 10 * (5 / 100)) by nra.
  split; [lra|].
  unfold updatePhysics. rewrite Hl.
  match goal with |- context [if ?b then _ else _] => destruct b end;
    cbn [velocity set_velocity set_position set_acceleration set_trailTimer
         set_trail acceleration]; rewrite Ha; ideal;
    rewrite Rmax_right by lra; apply vector_ext; cbn; ideal; ring.
Qed.

(** The theorem at a frame of 16 ms and the default friction. *)
Lemma X22_witness :
  exists k : R, 7 / 10 <= k <= 1
    /\ velocity (updatePhysics (frameDt 1016 1000) (1 / 100)
                   (set_velocity (rvec 3 4) (robject "a" 100 100 1 5)))
       = multiply (rvec 3 4) k.
Proof.
  apply (proj2 (proj2 (X22_frame_time 1016 1000 (1 / 100)))); try reflexivity; lra.
Defined.

End IdealCallers.

(** *** What the canvas components draw *)

Section IdealCanvas.
Local Open Scope R_scope.
Implicit Types (u v a b c : @Vector2 Ideal.number) (o A B : @ChargedObject Ideal.number)
  (e : @PhysicsEngine Ideal.number).

(** X23.  In ideal arithmetic, whenever [drawForceArrow] draws an arrow
    for [(A, B)] the product of the charges is not zero and the arrow, from
    the position of [A] to its end point, is a positive multiple of the
    force the engine applies to [A]; for distinct positions it is between 5
    and 300 long, and for coincident ones it has no length at all. *)
Theorem X23_arrow_along_force (scale : R) A B endPos :
  drawForceArrow true scale A B = Some endPos ->
  charge A * charge B <> 0
  /\ (exists k : R, 0 < k
        /\ subtract endPos (position A) = multiply (forceOnA A B) k)
  /\ (position A <> position B ->
      5 <= magnitude (subtract endPos (position A)) <= 300)
  /\ (position A = position B -> endPos = position A).
Proof.
  unfold drawForceArrow. cbn [negb]. unfold dec. ideal.
  change (PHYSICS_CONSTANTS.K_COULOMB * Rabs (charge A * charge B)
          / (Rmax (magnitude (subtract (position B) (position A)))
                  PHYSICS_CONSTANTS.MIN_DISTANCE
             * Rmax (magnitude (subtract (position B) (position A)))
                  PHYSICS_CONSTANTS.MIN_DISTANCE))
    with (forceMag A B).
  set (F := forceMag A B). set (q := charge A * charge B).
  set (L := Rmin (F * (15 / 10) * scale) 300).
  set (dir := normalize (subtract (position B) (position A))).
  destruct (Ideal.eqb q 0) eqn:Eq; [intros H; discriminate H|].
  apply ideal_eqb_false in Eq.
  destruct (Ideal.ltb L 5) eqn:EL; [intros H; discriminate H|].
  apply ideal_ltb_false in EL.
  assert (HL : L <= 300) by apply Rmin_r.
  assert (HF : 0 < F) by (apply forceMag_pos; exact Eq).
  destruct (forceOnA_cases A B) as (Hneg & Hpos & _). fold q dir F in Hneg, Hpos.
  assert (Hunit : position A <> position B -> magnitude dir = 1).
  { intros Hne. apply normalize_nonzero.
    intros Hz. apply (proj1 (subtract_zero_iff _ _)) in Hz. congruence. }
  assert (Hzero : position A = position B -> dir = zero).
  { intros He. unfold dir. rewrite He.
    replace (subtract (position B) (position B)) with (@zero Ideal.number)
      by (apply vector_ext; cbn; ideal; ring).
    apply normalize_zero. }
  clearbody F L dir q.
  assert (Hdir : forall s : R, (s = L \/ s = - L) ->
            endPos = add (position A) (multiply dir s) ->
            forceOnA A B = multiply dir (s / L * F) ->
            (exists k : R, 0 < k
               /\ subtract endPos (position A) = multiply (forceOnA A B) k)
            /\ (position A <> position B ->
                5 <= magnitude (subtract endPos (position A)) <= 300)
            /\ (position A = position B -> endPos = position A)).
  { intros s Hs -> Hf. split; [|split].
    - exists (L / F). split; [apply Rdiv_lt_0_compat; lra|].
      rewrite Hf. apply vector_ext; cbn; ideal; field; repeat split; lra.
    - intros Hne.
      replace (subtract (add (position A) (multiply dir s)) (position A))
        with (multiply dir s) by (apply vector_ext; cbn; ideal; ring).
      rewrite magnitude_multiply, (Hunit Hne).
      destruct Hs as [-> | ->]; [|rewrite Rabs_Ropp];
        rewrite Rabs_pos_eq by lra; lra.
    - intros He. rewrite (Hzero He). apply vector_ext; cbn; ideal; ring. }
  intros H. injection H as H. split; [exact Eq|].
  destruct (Ideal.ltb 0 q) eqn:E0.
  - apply ideal_ltb_true in E0. apply (Hdir (- L)); [now right| |].
    + rewrite <- H. apply vector_ext; cbn; ideal; ring.
    + rewrite (Hpos E0). f_equal. ideal. field. lra.
  - apply ideal_ltb_false in E0. apply (Hdir L); [now left| |].
    + now rewrite <- H.
    + rewrite Hneg by lra. f_equal. ideal. field. lra.
Qed.

(** The theorem at two coincident particles of equal charge. *)
Lemma X23_witness :
  let A := robject "a" 100 100 1 5 in
  let B := robject "b" 100 100 1 5 in
  exists endPos, drawForceArrow true 1 A B = Some endPos /\ endPos = position A.
Proof.
  intros A B. destruct (drawForceArrow true 1 A B) as [p|] eqn:E.
  - exists p. split; [reflexivity|].
    apply (X23_arrow_along_force 1 A B p E). reflexivity.
  - exfalso. unfold drawForceArrow in E. cbn [negb] in E.
    unfold dec, PHYSICS_CONSTANTS.MIN_DISTANCE, PHYSICS_CONSTANTS.K_COULOMB in E.
    ideal.
    assert (Hm : magnitude (subtract (position B) (position A)) = 0)
      by (apply magnitude_zero_iff, subtract_zero_iff; reflexivity).
    rewrite Hm in E. cbn [charge A B robject newChargedObject] in E.
    rewrite (Rabs_pos_eq (5 * 5)), (Rmax_right 0 60) in E by lra.
    rewrite (proj2 (ideal_eqb_false (5 * 5) 0)) in E by lra.
    rewrite (proj2 (ideal_ltb_false _ 5)) in E; [discriminate E|].
    unfold Rmin. destruct (Rle_dec _ _); lra.
Defined.

(** X24.  In ideal arithmetic, on a canvas of at least 50 by 35, the
    marker [ForceGraph] draws for the current state lies within the plot
    area; it sits in the top left corner of the plot for every distance up
    to 60 and on the right edge for every distance from 500 on. *)
Theorem X24_graphMarker_inside (distance q1 q2 w h cx cy : R) :
  50 <= w -> 35 <= h ->
  graphMarker distance q1 q2 w h = Some (cx, cy) ->
  40 <= cx <= w - 10 /\ 15 <= cy <= h - 20
  /\ (distance <= 60 -> cx = 40 /\ cy = 15)
  /\ (500 <= distance -> cx = w - 10).
Proof.
  intros Hw Hh. unfold graphMarker, dec, PHYSICS_CONSTANTS.MIN_DISTANCE,
    PHYSICS_CONSTANTS.MAX_DISTANCE, PHYSICS_CONSTANTS.K_COULOMB. ideal.
  destruct (Ideal.ltb (Rabs (q1 * q2)) (1 / 10)) eqn:Eq; [discriminate|].
  apply ideal_ltb_false in Eq. intros H. injection H as <- <-.
  set (qp := Rabs (q1 * q2)) in *.
  set (cd := Rmax 60 (Rmin 500 distance)).
  assert (Hcd : 60 <= cd <= 500)
    by (unfold cd, Rmax, Rmin; repeat destruct (Rle_dec _ _); lra).
  set (t := (cd - 60) / (500 - 60)).
  assert (Ht : 0 <= t <= 1).
  { unfold t. split.
    - apply Rmult_le_pos; [lra|]. apply Rlt_le, Rinv_0_lt_compat. lra.
    - apply (Rmult_le_reg_r (500 - 60)); [lra|].
      unfold Rdiv. rewrite Rmult_assoc, Rinv_l by lra. lra. }
  set (r := 20000 * qp / (cd * cd) / (20000 * qp / (60 * 60))).
  assert (Hcd2 : 3600 <= cd * cd) by nra.
  assert (Hr : r * (cd * cd) = 3600) by (unfold r; field; split; nra).
  assert (Hr1 : 0 < r <= 1) by (split; nra).
  split; [nra|]. split; [nra|]. split.
  - intros Hd.
    assert (cd = 60)
      by (unfold cd, Rmax, Rmin; repeat destruct (Rle_dec _ _); lra).
    assert (t = 0) by (unfold t; replace (cd - 60) with 0 by lra; field).
    assert (r = 1) by nra.
    split; nra.
  - intros Hd.
    assert (cd = 500)
      by (unfold cd, Rmax, Rmin; repeat destruct (Rle_dec _ _); lra).
    assert (t = 1) by (unfold t; replace (cd - 60) with 440 by lra; field).
    nra.
Qed.

(** The theorem at distance 100 and charges [5] and [-5], on a canvas of
    300 by 150. *)
Lemma X24_witness :
  exists cx cy : R,
    graphMarker (N := Ideal.number) 100 5 (-5) 300 150 = Some (cx, cy)
    /\ 40 <= cx <= 300 - 10 /\ 15 <= cy <= 150 - 20.
Proof.
  destruct (graphMarker (N := Ideal.number) 100 5 (-5) 300 150) as [[cx cy]|] eqn:E.
  - exists cx, cy. split; [reflexivity|].
    destruct (X24_graphMarker_inside 100 5 (-5) 300 150 cx cy) as (H1 & H2 & _);
      [lra | lra | exact E | split; assumption].
  - exfalso. unfold graphMarker, dec in E. ideal.
    rewrite (proj2 (ideal_ltb_false _ _)) in E; [discriminate E|].
    unfold Rabs. destruct (Rcase_abs _); lra.
Defined.

End IdealCanvas.

(** *** [normalize] on binary64 *)

Section FloatNormalizeFacts.
Local Open Scope Z_scope.

Lemma binary_round_aux_nonneg m e l :
  0 <= m -> SFnonneg (binary_round_aux prec emax false m e l) = true.
Proof.
  intros H. unfold binary_round_aux.
  pose proof (shr_fexp_nonneg m e l H) as H1.
  destruct (shr_fexp prec emax m e l) as [mrs' e'] eqn:E1. simpl in H1.
  pose proof (shr_fexp_nonneg
                (round_nearest_even (shr_m mrs') (loc_of_shr_record mrs')) e'
                loc_Exact (round_nearest_even_nonneg _ _ H1)) as H2.
  destruct (shr_fexp prec emax _ e' loc_Exact) as [mrs'' e''] eqn:E2.
  simpl in H2.
  destruct (shr_m mrs'') as [|p|p]; [reflexivity| |lia].
  destruct (e'' <=? emax - prec); reflexivity.
Qed.

Lemma SFmul_self_nonneg a : a <> S754_nan -> SFnonneg (SF64mul a a) = true.
Proof.
  intros H. unfold SF64mul, SFmul.
  destruct a as [[]|[]| |[] m e]; try congruence; try reflexivity;
    cbn [xorb]; apply binary_round_aux_nonneg; lia.
Qed.

Lemma SFadd_nonneg a b :
  SFnonneg a = true -> SFnonneg b = true -> SFnonneg (SF64add a b) = true.
Proof.
  unfold SF64add, SFadd.
  destruct a as [[]|[]| |[] ma ea]; try discriminate;
    destruct b as [[]|[]| |[] mb eb]; try discriminate; intros _ _;
    try reflexivity.
  cbn [cond_Zopp].
  change (Z.pos ?a + Z.pos ?b)%Z with (Z.pos (a + b)).
  unfold binary_normalize, binary_round.
  destruct (shl_align (_ + _) _ _) as [mz ez]. apply binary_round_aux_nonneg. lia.
Qed.

Lemma sqrtrem_nonneg n : 0 <= n -> 0 <= fst (Z.sqrtrem n).
Proof.
  intros H. pose proof (Z.sqrtrem_spec n H) as Hs.
  destruct (Z.sqrtrem n) as [s r]. cbn. nia.
Qed.

Lemma SFsqrt_nonneg a : SFnonneg a = true -> SFnonneg (SF64sqrt a) = true.
Proof.
  unfold SF64sqrt, SFsqrt.
  destruct a as [[]|[]| |[] m e]; try discriminate; intros _; try reflexivity.
  unfold SFsqrt_core_binary.
  set (s := e - 2 * _).
  set (m' := match s with Zpos _ => Z.shiftl (Zpos m) s | Z0 => Zpos m | Zneg _ => 0 end).
  assert (Hm' : 0 <= m').
  { unfold m'. destruct s; try lia. apply Z.shiftl_nonneg. lia. }
  pose proof (sqrtrem_nonneg m' Hm') as Hq.
  destruct (Z.sqrtrem m') as [q r]. cbn in Hq.
  now apply binary_round_aux_nonneg.
Qed.

Lemma SFdiv_not_nan a b :
  SFfin a = true -> SFdivisor b = true -> SF64div a b <> S754_nan.
Proof.
  unfold SF64div, SFdiv.
  destruct a as [sa|sa| |sa ma ea]; try discriminate;
    destruct b as [sb|sb| |sb mb eb]; try discriminate; intros _ _;
    try discriminate.
  unfold SFdiv_core_binary.
  set (e' := Z.min _ _). set (s := ea - eb - e').
  set (m' := match s with Zpos _ => Z.shiftl (Zpos ma) s | Z0 => Zpos ma | Zneg _ => 0 end).
  assert (Hm' : 0 <= m').
  { unfold m'. destruct s; try lia. apply Z.shiftl_nonneg. lia. }
  destruct (Z.div_eucl m' (Zpos mb)) as [q r] eqn:Eq.
  assert (Hq : q = m' / Zpos mb) by (unfold Z.div; now rewrite Eq).
  apply binary_round_aux_not_nan. rewrite Hq. apply Z.div_pos; lia.
Qed.

Lemma SFnonneg_not_nan a : SFnonneg a = true -> a <> S754_nan.
Proof. intros H ->. discriminate. Qed.

End FloatNormalizeFacts.

Section JSNormalizeFacts.
Implicit Types (v : @Vector2 JS.number).

Lemma js_sumsq_nonneg (a b : float) :
  is_finite a = true -> is_finite b = true ->
  SFnonneg (Prim2SF (a * a + b * b)%float) = true.
Proof.
  intros Ha Hb. rewrite FloatAxioms.add_spec, !FloatAxioms.mul_spec.
  apply SFadd_nonneg; apply SFmul_self_nonneg;
    apply is_nan_false, is_finite_not_nan; assumption.
Qed.

Lemma js_magnitude_nonneg v :
  is_finite (x v) = true -> is_finite (y v) = true ->
  SFnonneg (Prim2SF (magnitude v)) = true.
Proof.
  intros Hx Hy. unfold magnitude. js. rewrite FloatAxioms.sqrt_spec.
  now apply SFsqrt_nonneg, js_sumsq_nonneg.
Qed.

Lemma js_div_not_nan (a m : float) :
  is_finite a = true -> SFnonneg (Prim2SF m) = true -> (m =? 0)%float = false ->
  is_nan (a / m) = false.
Proof.
  intros Ha Hm Hz. apply is_nan_false. rewrite FloatAxioms.div_spec.
  apply SFdiv_not_nan; [now apply is_finite_true|].
  rewrite FloatAxioms.eqb_spec in Hz.
  destruct (Prim2SF m) as [[]|[]| |[] ? ?]; try discriminate; reflexivity.
Qed.

End JSNormalizeFacts.

Section JSNormalize.

(** X25.  On binary64, the magnitude of a vector with finite components
    is not NaN, and neither component of its [normalize] is: the sum of
    squares has its sign bit clear, so the square root is defined, and the
    division is by a number that is neither zero nor NaN. *)
Theorem X25_normalize_never_nan (v : @Vector2 JS.number) :
  is_finite (x v) = true -> is_finite (y v) = true ->
  is_nan (magnitude v) = false
  /\ is_nan (x (normalize v)) = false /\ is_nan (y (normalize v)) = false.
Proof.
  intros Hx Hy. pose proof (js_magnitude_nonneg v Hx Hy) as Hm.
  split; [apply is_nan_false, SFnonneg_not_nan, Hm|].
  unfold normalize. js.
  destruct (magnitude v =? JS.of_int 0)%float eqn:E; [split; reflexivity|].
  cbn [x y]. split; apply js_div_not_nan; assumption.
Qed.

(** The theorem at the vector [(3, 4)]. *)
Lemma X25_witness :
  is_nan (x (normalize (fvec 3 4))) = false.
Proof.
  apply (X25_normalize_never_nan (fvec 3 4)); reflexivity.
Defined.

End JSNormalize.
